(** * AIFlowForge: the workflow execution engine

    A shallow embedding of [backend/services/workflow_engine.py] (the node
    executors and [WorkflowEngine]), of the records of [backend/models.py]
    it uses, of the endpoints of [backend/routes/executions.py] and of the
    execute endpoint of [backend/routes/workflows.py], followed by their
    properties.

    Conventions.
    - A Python [Dict[str, Any]] is a [gmap string value]; [d.update(o)] is
      the left-biased union [o ∪ d]; [d.get(k, v)] is [default v (d !! k)].
    - [datetime.utcnow()], [uuid.uuid4()] and the event loop of asyncio are
      the outside world: the n-th reading of the clock is [utcnow_at n], the
      n-th identifier drawn is [uuid4_at n], and [asyncio.create_task]
      appends to the list of tasks the loop still has to start.
    - A coroutine that may raise is a function from the world to a result
      and a world ([M]).  The [while] loop of the background task takes
      fuel: [None] means the fuel ran out before the loop ended.
    - None of the built-in executors suspends, so once the event loop starts
      a background task the task runs to its end without interleaving; a
      task that was created and has not started yet can interleave with
      other calls on the engine. *)

From stdpp Require Import gmap strings pretty list fin_maps relations sorting.

#[local] Open Scope string_scope.
#[local] Open Scope list_scope.

(** ** Python values *)

#[warnings="-register-all"]
Inductive value :=
| VNone
| VBool (b : bool)
| VInt (z : Z)
| VStr (s : string)
| VList (l : list value)
| VDict (d : gmap string value).

Abbreviation dict := (gmap string value).

(** Exceptions.  [str(e)] is what the engine stores in [execution.error]. *)
Inductive exn :=
| KeyError (key : string)
| PyError (cls : string) (msg : string).

(** [str(KeyError(k))] is [repr(k)]; written here for keys that need no
    escaping. *)
Definition str_exn (e : exn) : string :=
  match e with
  | KeyError k => "'" +:+ k +:+ "'"
  | PyError _ msg => msg
  end.

Inductive result (A : Type) :=
| Ok (a : A)
| Raise (e : exn).
Arguments Ok {A} a.
Arguments Raise {A} e.

(** [x == s] for a string literal [s]. *)
Definition py_eq_str (x : value) (s : string) : bool :=
  match x with
  | VStr s' => bool_decide (s' = s)
  | _ => false
  end.

(** [len(x)]: a [TypeError] for what has no length. *)
Definition py_len (x : value) : result nat :=
  match x with
  | VStr s => Ok (String.length s)
  | VList l => Ok (length l)
  | VDict d => Ok (size d)
  | VNone => Raise (PyError "TypeError" "object of type 'NoneType' has no len()")
  | VBool _ => Raise (PyError "TypeError" "object of type 'bool' has no len()")
  | VInt _ => Raise (PyError "TypeError" "object of type 'int' has no len()")
  end.

(** ** models.py *)

Record WorkflowNode := {
  node_id : string;
  node_type : string;
  node_config : dict
}.

Record WorkflowEdge := {
  from_node : string;
  to_node : string;
  condition : option string
}.

Record WorkflowDefinition := {
  nodes : list WorkflowNode;
  edges : list WorkflowEdge
}.

Record Workflow := {
  wf_id : string;
  wf_name : string;
  definition : WorkflowDefinition;
  is_active : bool
}.

Inductive ExecutionStatus := PENDING | RUNNING | SUCCESS | FAILED | CANCELLED.

#[global] Instance ExecutionStatus_eq_dec : EqDecision ExecutionStatus.
Proof. solve_decision. Defined.

(** The string a member of the enumeration is. *)
Definition ExecutionStatus_value (s : ExecutionStatus) : string :=
  match s with
  | PENDING => "pending"
  | RUNNING => "running"
  | SUCCESS => "success"
  | FAILED => "failed"
  | CANCELLED => "cancelled"
  end.

Record Execution := {
  exec_id : string;
  workflow_id : string;
  status : ExecutionStatus;
  input : option dict;
  output : option dict;
  error : option string;
  started_at : option Z;
  completed_at : option Z;
  executed_by : option string
}.

Definition terminal (s : ExecutionStatus) : Prop :=
  s = SUCCESS ∨ s = FAILED ∨ s = CANCELLED.

(** Assignments to the attributes of an [Execution]. *)
Definition set_status (s : ExecutionStatus) (e : Execution) : Execution :=
  {| exec_id := exec_id e; workflow_id := workflow_id e; status := s;
     input := input e; output := output e; error := error e;
     started_at := started_at e; completed_at := completed_at e;
     executed_by := executed_by e |}.

Definition set_output (o : option dict) (e : Execution) : Execution :=
  {| exec_id := exec_id e; workflow_id := workflow_id e; status := status e;
     input := input e; output := o; error := error e;
     started_at := started_at e; completed_at := completed_at e;
     executed_by := executed_by e |}.

Definition set_error (m : option string) (e : Execution) : Execution :=
  {| exec_id := exec_id e; workflow_id := workflow_id e; status := status e;
     input := input e; output := output e; error := m;
     started_at := started_at e; completed_at := completed_at e;
     executed_by := executed_by e |}.

Definition set_completed_at (t : option Z) (e : Execution) : Execution :=
  {| exec_id := exec_id e; workflow_id := workflow_id e; status := status e;
     input := input e; output := output e; error := error e;
     started_at := started_at e; completed_at := t;
     executed_by := executed_by e |}.

(** ** The outside world *)

Record World := {
  clock_reads : nat;          (* calls of datetime.utcnow() so far *)
  uuid_draws : nat;           (* calls of uuid.uuid4() so far *)
  loop_tasks : list string    (* tasks created and not yet started *)
}.

Definition M (A : Type) : Type := World → result A * World.

#[global] Instance M_ret : MRet M := λ A a w, (Ok a, w).
#[global] Instance M_bind : MBind M := λ A B f m w,
  match m w with
  | (Ok a, w') => f a w'
  | (Raise e, w') => (Raise e, w')
  end.

Definition tick (w : World) : World :=
  {| clock_reads := S (clock_reads w); uuid_draws := uuid_draws w;
     loop_tasks := loop_tasks w |}.

Definition draw (w : World) : World :=
  {| clock_reads := clock_reads w; uuid_draws := S (uuid_draws w);
     loop_tasks := loop_tasks w |}.

Definition create_task (execution_id : string) (w : World) : World :=
  {| clock_reads := clock_reads w; uuid_draws := uuid_draws w;
     loop_tasks := loop_tasks w ++ [execution_id] |}.

Definition Executor : Type := WorkflowNode → dict → M dict.

(** The n-th reading of the wall clock, the text [isoformat()] gives for a
    time, and the n-th identifier [uuid4] draws. *)
Class Platform := {
  utcnow_at : nat → Z;
  isoformat : Z → string;
  uuid4_at : nat → string
}.

(** ** workflow_engine.py *)

(** One entry of [self.running_executions]. *)
Record ExecutionState := {
  es_execution : Execution;
  es_workflow : Workflow;
  es_current_node : option string;
  es_node_outputs : gmap string dict;
  es_completed_nodes : gset string
}.

Record WorkflowEngine := {
  executors : gmap string Executor;
  running_executions : gmap string ExecutionState
}.

(** The local variables of the loop of the background task, the
    [current_node] entry of the execution state, and [dispatched]: the calls
    [executor.execute(node, node_input)] made so far, oldest first (kept for
    the statements; the code has no such variable). *)
Record LoopState := {
  execution_queue : list string;
  completed_nodes : gset string;
  node_outputs : gmap string dict;
  current_node : option string;
  dispatched : list (string * dict)
}.

Inductive LoopExit :=
| Finished
| Raised (e : exn).

Inductive Step :=
| Next (st : LoopState) (w : World)
| Stop (exit : LoopExit) (st : LoopState) (w : World).

Section engine.
Context {platform : Platform}.

Definition utcnow : M Z := λ w, (Ok (utcnow_at (clock_reads w)), tick w).

Definition utcnow_iso : M value := t ← utcnow; mret (VStr (isoformat t)).

Definition config_get (node : WorkflowNode) (k : string) (dflt : value) : value :=
  default dflt (node_config node !! k).

Definition TriggerExecutor : Executor := λ node input_data,
  let trigger_type := config_get node "type" (VStr "manual") in
  if py_eq_str trigger_type "schedule" then
    t ← utcnow_iso;
    mret ({[ "trigger_type" := VStr "schedule";
             "triggered_at" := t;
             "cron" := config_get node "cron" VNone ]} : dict)
  else if py_eq_str trigger_type "webhook" then
    t ← utcnow_iso;
    mret ({[ "trigger_type" := VStr "webhook";
             "triggered_at" := t;
             "payload" := default (VDict ∅) (input_data !! "webhook_payload") ]} : dict)
  else
    t ← utcnow_iso;
    mret ({[ "trigger_type" := VStr "manual";
             "triggered_at" := t;
             "user_input" := VDict input_data ]} : dict).

Definition connector_data : list value :=
  (λ i : nat, VDict {[ "id" := VInt (Z.of_nat i);
                       "amount" := VInt (1000 + Z.of_nat i * 100) ]}) <$> seq 0 15.

Definition ConnectorExecutor : Executor := λ node input_data,
  let connector_id := config_get node "connector_id" VNone in
  let action := config_get node "action" (VStr "fetch") in
  t ← utcnow_iso;
  mret ({[ "connector_id" := connector_id;
           "action" := action;
           "result" := VDict {[ "records_fetched" := VInt 15;
                                "data" := VList connector_data ]};
           "executed_at" := t ]} : dict).

Definition AgentExecutor : Executor := λ node input_data,
  let agent_id := config_get node "agent_id" VNone in
  match py_len (default (VList []) (input_data !! "data")) with
  | Raise e => λ w, (Raise e, w)
  | Ok n =>
    t ← utcnow_iso;
    mret ({[ "agent_id" := agent_id;
             "processed_data" := VDict input_data;
             "analysis" := VDict {[ "total_items" := VInt (Z.of_nat n);
                                    "categorized" := VBool true;
                                    "anomalies_found" := VInt 2 ]};
             "executed_at" := t ]} : dict)
  end.

Definition ActionExecutor : Executor := λ node input_data,
  let action_type := config_get node "type" (VStr "email") in
  if py_eq_str action_type "email" then
    let recipient := config_get node "recipient" VNone in
    let subject := config_get node "subject" (VStr "Workflow Result") in
    t ← utcnow_iso;
    mret ({[ "action_type" := VStr "email";
             "recipient" := recipient;
             "subject" := subject;
             "sent" := VBool true;
             "sent_at" := t ]} : dict)
  else
    t ← utcnow_iso;
    mret ({[ "action_type" := action_type;
             "result" := VStr "Action executed successfully";
             "executed_at" := t ]} : dict).

Definition ConditionExecutor : Executor := λ node input_data,
  let condition := config_get node "condition" (VStr "true") in
  let result := true in
  t ← utcnow_iso;
  mret ({[ "condition" := condition;
           "result" := VBool result;
           "evaluated_at" := t ]} : dict).

(** *** WorkflowEngine *)

(** [__init__] *)
Definition builtin_executors : gmap string Executor :=
  {[ "trigger" := TriggerExecutor;
     "connector" := ConnectorExecutor;
     "agent" := AgentExecutor;
     "action" := ActionExecutor;
     "condition" := ConditionExecutor ]}.

Definition WorkflowEngine_init : WorkflowEngine :=
  {| executors := builtin_executors; running_executions := ∅ |}.

Definition set_execution (e : Execution) (s : ExecutionState) : ExecutionState :=
  {| es_execution := e; es_workflow := es_workflow s;
     es_current_node := es_current_node s;
     es_node_outputs := es_node_outputs s;
     es_completed_nodes := es_completed_nodes s |}.

Definition set_current_node (c : option string) (s : ExecutionState) : ExecutionState :=
  {| es_execution := es_execution s; es_workflow := es_workflow s;
     es_current_node := c;
     es_node_outputs := es_node_outputs s;
     es_completed_nodes := es_completed_nodes s |}.

Definition set_running (r : gmap string ExecutionState) (eng : WorkflowEngine) : WorkflowEngine :=
  {| executors := executors eng; running_executions := r |}.

(** [execute_workflow]: no path of it raises, so it is a plain function of
    the world. *)
Definition execute_workflow (eng : WorkflowEngine) (workflow : Workflow)
    (input_data : dict) (w : World) : string * WorkflowEngine * World :=
  let execution_id := uuid4_at (uuid_draws w) in
  let w1 := draw w in
  let execution :=
    {| exec_id := execution_id;
       workflow_id := wf_id workflow;
       status := RUNNING;
       input := Some input_data;
       output := None;
       error := None;
       started_at := Some (utcnow_at (clock_reads w1));
       completed_at := None;
       executed_by := None |} in
  let w2 := tick w1 in
  let state :=
    {| es_execution := execution;
       es_workflow := workflow;
       es_current_node := None;
       es_node_outputs := ∅;
       es_completed_nodes := ∅ |} in
  (execution_id,
   set_running (<[execution_id := state]> (running_executions eng)) eng,
   create_task execution_id w2).

(** The execution graph built at the start of the background task. *)
Definition nodes_by_id (d : WorkflowDefinition) : gmap string WorkflowNode :=
  foldl (λ m node, <[node_id node := node]> m) ∅ (nodes d).

Definition edges_by_from (d : WorkflowDefinition) : gmap string (list WorkflowEdge) :=
  foldl (λ m edge, <[from_node edge := default [] (m !! from_node edge) ++ [edge]]> m)
        ∅ (edges d).

Definition incoming_edges (d : WorkflowDefinition) : gset string :=
  list_to_set (to_node <$> edges d).

Definition entry_nodes (d : WorkflowDefinition) : list string :=
  node_id <$> filter (λ node, node_id node ∉ incoming_edges d) (nodes d).

Definition dependencies (d : WorkflowDefinition) (current_node_id : string) : list string :=
  from_node <$> filter (λ edge, to_node edge = current_node_id) (edges d).

(** [node_input = execution.input.copy()] followed by the [update] of
    every dependency that has an output, in the order of [dependencies]. *)
Definition prepare_input (top : dict) (deps : list string)
    (outs : gmap string dict) : dict :=
  foldl (λ node_input dep,
           match outs !! dep with
           | Some o => o ∪ node_input
           | None => node_input
           end) top deps.

Section loop.
Variable execs : gmap string Executor.
Variable d : WorkflowDefinition.
Variable top_input : option dict.

(** One iteration of [while execution_queue:], entered with a non-empty
    queue: the loop goes on ([Next]), or an exception leaves it
    ([Stop]). *)
Definition loop_body (current_node_id : string) (queue : list string)
    (st : LoopState) (w : World) : Step :=
  if decide (current_node_id ∈ completed_nodes st) then
    Next {| execution_queue := queue;
            completed_nodes := completed_nodes st;
            node_outputs := node_outputs st;
            current_node := current_node st;
            dispatched := dispatched st |} w
  else
    let deps := dependencies d current_node_id in
    if decide (Forall (λ dep, dep ∈ completed_nodes st) deps) then
      match nodes_by_id d !! current_node_id with
      | None =>
        Stop (Raised (KeyError current_node_id))
             {| execution_queue := queue;
                completed_nodes := completed_nodes st;
                node_outputs := node_outputs st;
                current_node := current_node st;
                dispatched := dispatched st |} w
      | Some node =>
        let st1 :=
          {| execution_queue := queue;
             completed_nodes := completed_nodes st;
             node_outputs := node_outputs st;
             current_node := Some current_node_id;
             dispatched := dispatched st |} in
        match top_input with
        | None =>
          Stop (Raised (PyError "AttributeError"
                          "'NoneType' object has no attribute 'copy'"))
               st1 w
        | Some top =>
          let node_input := prepare_input top deps (node_outputs st) in
          match (execs !! node_type node : option Executor) with
          | None =>
            Stop (Raised (PyError "Exception"
                            ("No executor found for node type: " +:+ node_type node)))
                 st1 w
          | Some executor =>
            let calls := dispatched st ++ [(current_node_id, node_input)] in
            match executor node node_input w with
            | (Raise e, w') =>
              Stop (Raised e)
                   {| execution_queue := queue;
                      completed_nodes := completed_nodes st;
                      node_outputs := node_outputs st;
                      current_node := Some current_node_id;
                      dispatched := calls |} w'
            | (Ok out, w') =>
              Next {| execution_queue :=
                        queue ++ (to_node <$> default [] (edges_by_from d !! current_node_id));
                      completed_nodes := {[ current_node_id ]} ∪ completed_nodes st;
                      node_outputs := <[current_node_id := out]> (node_outputs st);
                      current_node := Some current_node_id;
                      dispatched := calls |} w'
            end
          end
        end
      end
    else
      Next {| execution_queue := queue ++ [current_node_id];
              completed_nodes := completed_nodes st;
              node_outputs := node_outputs st;
              current_node := current_node st;
              dispatched := dispatched st |} w.

Fixpoint while_loop (fuel : nat) (st : LoopState) (w : World)
    : option (LoopExit * LoopState * World) :=
  match fuel with
  | O => None
  | S fuel' =>
    match execution_queue st with
    | [] => Some (Finished, st, w)
    | current_node_id :: queue =>
      match loop_body current_node_id queue st w with
      | Next st' w' => while_loop fuel' st' w'
      | Stop exit st' w' => Some (exit, st', w')
      end
    end
  end.

Definition loop_init : LoopState :=
  {| execution_queue := entry_nodes d;
     completed_nodes := ∅;
     node_outputs := ∅;
     current_node := None;
     dispatched := [] |}.
End loop.

(** [execution.output] of a successful run. *)
Definition success_output (st : LoopState) : dict :=
  {[ "node_outputs" := VDict (VDict <$> node_outputs st);
     "completed_nodes" := VList (VStr <$> elements (completed_nodes st));
     "execution_summary" := VStr "Workflow completed successfully" ]}.

(** [_execute_workflow_async].  The result is the engine, the calls of
    executors the task made, and the world; [None] when the loop has not
    ended within [fuel] iterations.  When the identifier is not in the
    table the [except] block fails on the unbound [execution] and the task
    dies without touching the engine. *)
Definition _execute_workflow_async (fuel : nat) (eng : WorkflowEngine)
    (execution_id : string) (w : World)
    : option (WorkflowEngine * list (string * dict) * World) :=
  match running_executions eng !! execution_id with
  | None => Some (eng, [], w)
  | Some execution_state =>
    let workflow := es_workflow execution_state in
    let execution := es_execution execution_state in
    match while_loop (executors eng) (definition workflow) (input execution)
                     fuel (loop_init (definition workflow)) w with
    | None => None
    | Some (Finished, st, w') =>
      let execution' :=
        set_completed_at (Some (utcnow_at (clock_reads w')))
          (set_output (Some (success_output st))
             (set_status SUCCESS execution)) in
      Some (set_running
              (<[execution_id :=
                   set_execution execution'
                     (set_current_node (current_node st) execution_state)]>
                 (running_executions eng)) eng,
            dispatched st, tick w')
    | Some (Raised e, st, w') =>
      let execution' :=
        set_completed_at (Some (utcnow_at (clock_reads w')))
          (set_error (Some (str_exn e))
             (set_status FAILED execution)) in
      Some (set_running
              (<[execution_id :=
                   set_execution execution'
                     (set_current_node (current_node st) execution_state)]>
                 (running_executions eng)) eng,
            dispatched st, tick w')
    end
  end.

(** [cancel_execution] *)
Definition cancel_execution (eng : WorkflowEngine) (execution_id : string)
    (w : World) : bool * WorkflowEngine * World :=
  match running_executions eng !! execution_id with
  | None => (false, eng, w)
  | Some execution_state =>
    let execution := es_execution execution_state in
    if decide (status execution ∈ [SUCCESS; FAILED; CANCELLED]) then
      (false, eng, w)
    else
      let execution' :=
        set_error (Some "Execution cancelled by user")
          (set_completed_at (Some (utcnow_at (clock_reads w)))
             (set_status CANCELLED execution)) in
      (true,
       set_running
         (<[execution_id := set_execution execution' execution_state]>
            (running_executions eng)) eng,
       tick w)
  end.

(** The event loop starts the oldest task it holds. *)
Definition start_next_task (fuel : nat) (eng : WorkflowEngine) (w : World)
    : option (WorkflowEngine * list (string * dict) * World) :=
  match loop_tasks w with
  | [] => Some (eng, [], w)
  | execution_id :: rest =>
    _execute_workflow_async fuel eng execution_id
      {| clock_reads := clock_reads w; uuid_draws := uuid_draws w;
         loop_tasks := rest |}
  end.

(** [t.isoformat() if t else None] *)
Definition isoformat_or_none (t : option Z) : value :=
  from_option (λ t, VStr (isoformat t)) VNone t.

(** [get_execution_status] *)
Definition get_execution_status (eng : WorkflowEngine) (execution_id : string)
    : dict :=
  match running_executions eng !! execution_id with
  | None => {[ "error" := VStr "Execution not found" ]}
  | Some execution_state =>
    let execution := es_execution execution_state in
    {[ "execution_id" := VStr execution_id;
       "status" := VStr (ExecutionStatus_value (status execution));
       "current_node" := from_option VStr VNone (es_current_node execution_state);
       "completed_nodes" :=
         VList (VStr <$> elements (es_completed_nodes execution_state));
       "started_at" := isoformat_or_none (started_at execution);
       "completed_at" := isoformat_or_none (completed_at execution);
       "error" := from_option VStr VNone (error execution) ]}
  end.

(** [get_running_executions].  The list comes in the order of the table of
    the model, not in the order of insertion of the Python dictionary. *)
Definition get_running_executions (eng : WorkflowEngine) : list string :=
  (filter (λ item, status (es_execution item.2) = RUNNING)
          (map_to_list (running_executions eng))).*1.

End engine.

(** ** routes/executions.py

    The endpoints work on [executions_db], a table of their own.  The status of
    a record is compared with the strings ["pending"] and ["running"], which
    the members [PENDING] and [RUNNING] of the string enumeration equal. *)

Record HTTPException := {
  status_code : nat;
  detail : string
}.

(** [models.ExecutionCreate] *)
Record ExecutionCreate := {
  ec_workflow_id : string;
  ec_input : option dict;
  ec_executed_by : option string
}.

(** [x or y] for an optional string [x]. *)
Definition py_or_str (x : option string) (y : string) : string :=
  match x with
  | Some s => if decide (s = "") then y else s
  | None => y
  end.

(** [l.sort(key=key, reverse=True)]: the stable sort by descending key;
    elements with equal keys keep their order. *)
Fixpoint insert_reverse {A : Type} (key : A → Z) (x : A) (l : list A) : list A :=
  match l with
  | [] => [x]
  | y :: l' =>
    if decide (key x < key y)%Z then y :: insert_reverse key x l'
    else x :: y :: l'
  end.

Definition sort_reverse {A : Type} (key : A → Z) (l : list A) : list A :=
  foldr (insert_reverse key) [] l.

(** [l[:limit]]: a negative [limit] counts from the end. *)
Definition py_slice_to {A : Type} (limit : Z) (l : list A) : list A :=
  if decide (0 ≤ limit)%Z then take (Z.to_nat limit) l
  else take (length l - Z.to_nat (- limit)) l.

Section routes.
Context {platform : Platform}.

Definition route_cancel_execution (executions_db : gmap string Execution)
    (execution_id : string) (w : World)
    : (HTTPException + dict) * gmap string Execution * World :=
  match executions_db !! execution_id with
  | None =>
    (inl {| status_code := 404; detail := "Execution not found" |},
     executions_db, w)
  | Some execution =>
    if decide (status execution ∉ [PENDING; RUNNING]) then
      (inl {| status_code := 400;
              detail := "Cannot cancel execution that is not pending or running" |},
       executions_db, w)
    else
      let execution' :=
        set_error (Some "Execution cancelled by user")
          (set_completed_at (Some (utcnow_at (clock_reads w)))
             (set_status CANCELLED execution)) in
      (inr ({[ "execution_id" := VStr execution_id;
               "status" := VStr "cancelled";
               "message" := VStr "Execution cancelled successfully" ]} : dict),
       <[execution_id := execution']> executions_db,
       tick w)
  end.
(** [get_execution] *)
Definition get_execution (executions_db : gmap string Execution)
    (execution_id : string) : HTTPException + Execution :=
  match executions_db !! execution_id with
  | None => inl {| status_code := 404; detail := "Execution not found" |}
  | Some execution => inr execution
  end.

(** [create_execution]; [current_user_id] is [current_user.id]. *)
Definition create_execution (executions_db : gmap string Execution)
    (execution_data : ExecutionCreate) (current_user_id : string) (w : World)
    : Execution * gmap string Execution * World :=
  let execution_id := uuid4_at (uuid_draws w) in
  let w1 := draw w in
  let execution :=
    {| exec_id := execution_id;
       workflow_id := ec_workflow_id execution_data;
       status := PENDING;
       input := ec_input execution_data;
       output := None;
       error := None;
       started_at := Some (utcnow_at (clock_reads w1));
       completed_at := None;
       executed_by :=
         Some (py_or_str (ec_executed_by execution_data) current_user_id) |} in
  (execution, <[execution_id := execution]> executions_db, tick w1).

(** [update_execution_status].  The parameter [status] of the endpoint is a
    string that hides the module [fastapi.status] in the body: for an
    unknown identifier the expression [status.HTTP_404_NOT_FOUND] raises an
    [AttributeError] before any [HTTPException] is built.  The model covers
    the calls whose [status] is the string of a member of the enumeration,
    given here as the member; [output] and [error] are assigned when they
    are truthy. *)
Definition update_execution_status (executions_db : gmap string Execution)
    (execution_id : string) (new_status : ExecutionStatus)
    (new_output : option dict) (new_error : option string) (w : World)
    : result Execution * gmap string Execution * World :=
  match executions_db !! execution_id with
  | None =>
    (Raise (PyError "AttributeError"
              "'str' object has no attribute 'HTTP_404_NOT_FOUND'"),
     executions_db, w)
  | Some execution =>
    let execution1 := set_status new_status execution in
    let execution2 :=
      match new_output with
      | Some o => if decide (size o = 0) then execution1
                  else set_output (Some o) execution1
      | None => execution1
      end in
    let execution3 :=
      match new_error with
      | Some m => if decide (m = "") then execution2
                  else set_error (Some m) execution2
      | None => execution2
      end in
    if decide (new_status ∈ [SUCCESS; FAILED; CANCELLED]) then
      let execution4 :=
        set_completed_at (Some (utcnow_at (clock_reads w))) execution3 in
      (Ok execution4, <[execution_id := execution4]> executions_db, tick w)
    else
      (Ok execution3, <[execution_id := execution3]> executions_db, w)
  end.

(** [x.started_at or datetime.min], the key of the sort. *)
Definition started_key (datetime_min : Z) (x : Execution) : Z :=
  default datetime_min (started_at x).

(** [get_executions] on [executions], the list [executions_db.values()]
    gives; [datetime_min] is [datetime.min]. *)
Definition get_executions (datetime_min : Z) (executions : list Execution)
    (workflow_filter : option string) (limit : Z) : list Execution :=
  let executions :=
    match workflow_filter with
    | Some wanted =>
      if decide (wanted = "") then executions
      else filter (λ e, workflow_id e = wanted) executions
    | None => executions
    end in
  py_slice_to limit (sort_reverse (started_key datetime_min) executions).

(** [get_execution_stats] on [statuses], the list of [e.status] for [e]
    in [executions_db.values()]: each is the string the record holds, the
    value of a member of the enumeration or any other string
    [update_execution_status] has stored.  The function reads nothing else
    of the executions.  The entry ["success_rate"], a float rounded to two
    places, is left out of the dictionary. *)
Definition get_execution_stats (statuses : list string) : gmap string nat :=
  {[ "total_executions" := length statuses;
     "successful_executions" := length (filter (λ s, s = "success") statuses);
     "failed_executions" := length (filter (λ s, s = "failed") statuses);
     "running_executions" := length (filter (λ s, s = "running") statuses);
     "cancelled_executions" :=
       length (filter (λ s, s = "cancelled") statuses) ]}.

(** ** routes/workflows.py: the execute endpoint

    The endpoint makes an engine of its own for every call.  The result
    holds the response and that engine, which only the task created by the
    call refers to. *)
Definition route_execute_workflow (workflows_db : gmap string Workflow)
    (workflow_id : string) (input_data : option dict) (w : World)
    : (HTTPException + dict * WorkflowEngine) * World :=
  match workflows_db !! workflow_id with
  | None =>
    (inl {| status_code := 404; detail := "Workflow not found" |}, w)
  | Some workflow =>
    if is_active workflow then
      let started :=
        execute_workflow WorkflowEngine_init workflow (default ∅ input_data) w in
      (inr ({[ "execution_id" := VStr started.1.1;
               "status" := VStr "running";
               "message" := VStr "Workflow execution started successfully" ]},
            started.1.2),
       started.2)
    else
      (inl {| status_code := 400; detail := "Workflow is not active" |}, w)
  end.

End routes.

(** ** The graph of a definition *)

(** [edge_rel d a b]: the definition has an edge from [a] to [b]. *)
Definition edge_rel (d : WorkflowDefinition) (a b : string) : Prop :=
  ∃ e, e ∈ edges d ∧ from_node e = a ∧ to_node e = b.

Definition has_cycle (d : WorkflowDefinition) : Prop :=
  ∃ n, tc (edge_rel d) n n.

Definition acyclic (d : WorkflowDefinition) : Prop :=
  ∀ n, ¬ tc (edge_rel d) n n.

Definition node_ids (d : WorkflowDefinition) : list string :=
  node_id <$> nodes d.

(** The invariants the data model asks of a definition, acyclicity apart:
    node identifiers are unique and every edge joins declared nodes. *)
Definition well_formed (d : WorkflowDefinition) : Prop :=
  NoDup (node_ids d) ∧
  ∀ e, e ∈ edges d → from_node e ∈ node_ids d ∧ to_node e ∈ node_ids d.

(** The declared nodes a finished run has not executed. *)
Definition skipped_nodes (d : WorkflowDefinition) (st : LoopState) : list string :=
  filter (λ n, n ∉ completed_nodes st) (node_ids d).

(** ** The vocabulary of the properties *)

(** The record [cancel_execution] leaves when it cancels at time [t]. *)
Definition cancelled_by_user (t : Z) (e : Execution) : Execution :=
  {| exec_id := exec_id e; workflow_id := workflow_id e;
     status := CANCELLED;
     input := input e; output := output e;
     error := Some "Execution cancelled by user";
     started_at := started_at e;
     completed_at := Some t;
     executed_by := executed_by e |}.

(** What the task leaves in the table, by the way its loop ended. *)
Definition finished_record {platform : Platform} (e : Execution) (st : LoopState) (w : World)
    : Execution :=
  set_completed_at (Some (utcnow_at (clock_reads w)))
    (set_output (Some (success_output st)) (set_status SUCCESS e)).

Definition failed_record {platform : Platform} (e : Execution) (err : exn) (w : World) : Execution :=
  set_completed_at (Some (utcnow_at (clock_reads w)))
    (set_error (Some (str_exn err)) (set_status FAILED e)).

(** Every call made so far was given the top-level input updated with the
    outputs of the dependencies of its node, in the order of
    [dependencies]; those outputs are the ones the table holds now. *)
Definition inputs_inv (d : WorkflowDefinition) (top : dict) (st : LoopState)
    : Prop :=
  (∀ n, n ∈ completed_nodes st ↔ is_Some (node_outputs st !! n))
  ∧ ∀ c inp, (c, inp) ∈ dispatched st →
      inp = prepare_input top (dependencies d c) (node_outputs st)
      ∧ Forall (λ p, p ∈ completed_nodes st) (dependencies d c).

(** A node of the queue that the loop puts back: it is not completed and
    one of its dependencies is not completed either. *)
Definition blocked (d : WorkflowDefinition) (st : LoopState) (n : string) : Prop :=
  (n ∉ completed_nodes st)
  ∧ ¬ Forall (λ dep, dep ∈ completed_nodes st) (dependencies d n).

(** A node the loop would execute. *)
Definition ready (d : WorkflowDefinition) (st : LoopState) (n : string) : Prop :=
  n ∈ node_ids d
  ∧ (n ∉ completed_nodes st)
  ∧ Forall (λ dep, dep ∈ completed_nodes st) (dependencies d n).

#[global] Instance blocked_dec d st n : Decision (blocked d st n).
Proof. unfold blocked. apply _. Defined.

(** Queue and completed set hold declared nodes only; every declared node
    that is not completed and is an entry node or has a completed
    predecessor is in the queue; the calls made are the completed nodes,
    each once. *)
Definition schedule_inv (d : WorkflowDefinition) (st : LoopState) : Prop :=
  (∀ n, n ∈ execution_queue st → n ∈ node_ids d)
  ∧ (∀ n, n ∈ completed_nodes st → n ∈ node_ids d)
  ∧ (∀ n, n ∈ node_ids d → n ∉ completed_nodes st →
       n ∈ entry_nodes d ∨ (∃ p, p ∈ completed_nodes st ∧ edge_rel d p n) →
       n ∈ execution_queue st)
  ∧ NoDup (dispatched st).*1
  ∧ (∀ n, n ∈ (dispatched st).*1 ↔ n ∈ completed_nodes st).

(** The state with another queue. *)
Definition with_queue (queue : list string) (st : LoopState) : LoopState :=
  {| execution_queue := queue;
     completed_nodes := completed_nodes st;
     node_outputs := node_outputs st;
     current_node := current_node st;
     dispatched := dispatched st |}.

(** The declared nodes that are not completed yet. *)
Definition pending (d : WorkflowDefinition) (st : LoopState) : list string :=
  filter (λ n, n ∉ completed_nodes st) (node_ids d).

(** What decreases between two executions or removals of a queue head. *)
Definition loop_measure (d : WorkflowDefinition) (st : LoopState) : nat :=
  length (pending d st) * S (length (edges d)) + length (execution_queue st).

(** The values [len] accepts. *)
Definition sized (x : value) : Prop :=
  match x with
  | VStr _ | VList _ | VDict _ => True
  | VNone | VBool _ | VInt _ => False
  end.

(** The ["data"] entry of an input is absent or has a length. *)
Definition data_sized (input_data : dict) : Prop :=
  match input_data !! "data" with
  | None => True
  | Some x => sized x
  end.

Definition known_types : list string :=
  ["trigger"; "connector"; "agent"; "action"; "condition"].

(** The queue holds declared nodes and no output has a ["data"] entry. *)
Definition builtin_inv (d : WorkflowDefinition) (st : LoopState) : Prop :=
  (∀ n, n ∈ execution_queue st → n ∈ node_ids d)
  ∧ (∀ n o, node_outputs st !! n = Some o → o !! "data" = None).

(** The same definition with the condition of every edge removed. *)
Definition without_conditions (d : WorkflowDefinition) : WorkflowDefinition :=
  {| nodes := nodes d;
     edges := (λ e, {| from_node := from_node e; to_node := to_node e;
                       condition := None |}) <$> edges d |}.

(** A list of calls in which every node comes after all its
    dependencies. *)
Definition dependency_order (d : WorkflowDefinition) (calls : list string)
    : Prop :=
  ∀ i c, calls !! i = Some c →
         Forall (λ p, p ∈ take i calls) (dependencies d c).

(** The calls made are the completed nodes, each once, in dependency
    order, and the outputs kept are those of the completed nodes. *)
Definition calls_inv (d : WorkflowDefinition) (st : LoopState) : Prop :=
  (∀ n, n ∈ completed_nodes st ↔ n ∈ (dispatched st).*1)
  ∧ dom (node_outputs st) = completed_nodes st
  ∧ NoDup (dispatched st).*1
  ∧ dependency_order d (dispatched st).*1.

(** The queue holds entry nodes and targets of edges. *)
Definition queue_inv (d : WorkflowDefinition) (st : LoopState) : Prop :=
  ∀ n, n ∈ execution_queue st →
       n ∈ entry_nodes d ∨ n ∈ to_node <$> edges d.

(** Every call was made for a declared node whose type has an executor. *)
Definition calls_have_executors (execs : gmap string Executor)
    (d : WorkflowDefinition) (st : LoopState) : Prop :=
  ∀ c, c ∈ (dispatched st).*1 →
       ∃ node, nodes_by_id d !! c = Some node
               ∧ is_Some (execs !! node_type node).

(** Every output kept is what the executor of its node returned for an
    input with the ["data"] entry of the top-level input. *)
Definition outputs_inv (execs : gmap string Executor) (d : WorkflowDefinition)
    (top : dict) (st : LoopState) : Prop :=
  ∀ c out, node_outputs st !! c = Some out →
    ∃ node (executor : Executor) input_data w0 w1,
      nodes_by_id d !! c = Some node
      ∧ execs !! node_type node = Some executor
      ∧ input_data !! "data" = top !! "data"
      ∧ executor node input_data w0 = (Ok out, w1).

(** The call is made for a declared node of type agent. *)
Definition agent_call (d : WorkflowDefinition) (c : string) : Prop :=
  ∃ node, nodes_by_id d !! c = Some node ∧ node_type node = "agent".

(** The invariant of the built-in runs, and no call made for an agent
    node. *)
Definition unsized_inv (d : WorkflowDefinition) (st : LoopState) : Prop :=
  builtin_inv d st ∧ ∀ c, c ∈ (dispatched st).*1 → ¬ agent_call d c.

(** The loop was left by the [TypeError] of [len] on the ["data"] entry of
    the top-level input, raised by the last call, the only one made for an
    agent node. *)
Definition type_error_exit (d : WorkflowDefinition) (top : dict) (e : exn)
    (st : LoopState) : Prop :=
  (∃ msg, e = PyError "TypeError" msg
          ∧ py_len (default (VList []) (top !! "data")) = Raise e)
  ∧ ∃ earlier c input_data,
      dispatched st = earlier ++ [(c, input_data)]
      ∧ agent_call d c
      ∧ ∀ c', c' ∈ earlier.*1 → ¬ agent_call d c'.

(** Why a loop was left by the exception [e]: a queued target of an edge
    is not a declared node, the type of a declared node has no executor, or
    the executor of a declared node raised [e]. *)
Definition raise_reason (execs : gmap string Executor) (d : WorkflowDefinition)
    (e : exn) (st : LoopState) : Prop :=
  (∃ k, e = KeyError k ∧ (k ∉ node_ids d) ∧ k ∈ to_node <$> edges d
        ∧ k ∉ (dispatched st).*1)
  ∨ (∃ node, node ∈ nodes d ∧ execs !! node_type node = None
             ∧ e = PyError "Exception"
                     ("No executor found for node type: " +:+ node_type node)
             ∧ current_node st = Some (node_id node)
             ∧ node_id node ∉ (dispatched st).*1)
  ∨ (∃ node (executor : Executor) input_data w0 w1,
       node ∈ nodes d ∧ execs !! node_type node = Some executor
       ∧ executor node input_data w0 = (Raise e, w1)
       ∧ last (dispatched st) = Some (node_id node, input_data)).

(** Positions that rank the chain and the condition example. *)
Definition chain_rank (n : string) : nat :=
  if decide (n = "trigger") then 0
  else if decide (n = "connector") then 1
  else if decide (n = "agent") then 2
  else 3.

Definition condition_rank (n : string) : nat :=
  if decide (n = "start") then 0 else if decide (n = "check") then 1 else 2.

(** ** Concrete data for the examples *)

Definition example_platform : Platform :=
  {| utcnow_at := λ n, (1700000000 + Z.of_nat n)%Z;
     isoformat := λ t, "2023-11-14T22:13:20";
     uuid4_at := λ n, "execution-" +:+ pretty n |}.

Definition world0 : World :=
  {| clock_reads := 0; uuid_draws := 0; loop_tasks := [] |}.

Definition mk_node (i t : string) (c : dict) : WorkflowNode :=
  {| node_id := i; node_type := t; node_config := c |}.

Definition mk_edge (a b : string) : WorkflowEdge :=
  {| from_node := a; to_node := b; condition := None |}.

Definition mk_workflow (d : WorkflowDefinition) : Workflow :=
  {| wf_id := "workflow-1"; wf_name := "example"; definition := d;
     is_active := true |}.

(** Two nodes that depend on each other. *)
Definition cyclic_definition : WorkflowDefinition :=
  {| nodes := [mk_node "a" "agent" ∅; mk_node "b" "action" ∅];
     edges := [mk_edge "a" "b"; mk_edge "b" "a"] |}.

(** An entry node in front of the same cycle. *)
Definition entered_cycle_definition : WorkflowDefinition :=
  {| nodes := [mk_node "e" "trigger" ∅; mk_node "a" "agent" ∅;
               mk_node "b" "action" ∅];
     edges := [mk_edge "e" "a"; mk_edge "a" "b"; mk_edge "b" "a"] |}.

Definition single_definition : WorkflowDefinition :=
  {| nodes := [mk_node "trigger" "trigger" ∅]; edges := [] |}.

(** The linear chain trigger, connector, agent, action; the configuration
    of each node is left open. *)
Definition chain_definition (c_trigger c_connector c_agent c_action : dict)
    : WorkflowDefinition :=
  {| nodes := [mk_node "trigger" "trigger" c_trigger;
               mk_node "connector" "connector" c_connector;
               mk_node "agent" "agent" c_agent;
               mk_node "action" "action" c_action];
     edges := [mk_edge "trigger" "connector"; mk_edge "connector" "agent";
               mk_edge "agent" "action"] |}.

(** Two triggers [a] and [b] in front of [c]; the edge from [b] comes first
    in the definition. *)
Definition merge_definition : WorkflowDefinition :=
  {| nodes := [mk_node "a" "trigger" {[ "type" := VStr "schedule" ]};
               mk_node "b" "trigger" ∅;
               mk_node "c" "action" ∅];
     edges := [mk_edge "b" "c"; mk_edge "a" "c"] |}.

(** A condition node whose expression is the literal [false], in front of an
    action; the edge to the action carries the same expression. *)
Definition condition_definition : WorkflowDefinition :=
  {| nodes := [mk_node "start" "trigger" ∅;
               mk_node "check" "condition" {[ "condition" := VStr "false" ]};
               mk_node "notify" "action" ∅];
     edges := [mk_edge "start" "check";
               {| from_node := "check"; to_node := "notify";
                  condition := Some "false" |}] |}.

(** An executor that raises [e] whatever it is given. *)
Definition raising_executor (e : exn) : Executor :=
  λ node input_data w, (Raise e, w).

(** Modelled from the spec: the code has no evaluator of condition
    expressions and the specification does not define their language; of
    the expressions only the two boolean literals are given a value here. *)
Definition literal_value (expr : string) : option bool :=
  if decide (expr = "true") then Some true
  else if decide (expr = "false") then Some false
  else None.

(** A position for every node such that every edge goes forward. *)
Definition ranked (d : WorkflowDefinition) (rank : string → nat) : Prop :=
  ∀ e, e ∈ edges d → (rank (from_node e) < rank (to_node e))%nat.

(** The chain with empty configurations, and an engine whose agent executor
    raises the error of the scenario. *)
Definition plain_chain : WorkflowDefinition := chain_definition ∅ ∅ ∅ ∅.

Definition llm_unavailable : exn := PyError "ExecutionError" "LLM unavailable".

Definition failing_engine : WorkflowEngine :=
  {| executors := <["agent" := raising_executor llm_unavailable]>
                    (@builtin_executors example_platform);
     running_executions := ∅ |}.

Definition submit_on (eng : WorkflowEngine) (d : WorkflowDefinition)
    (input_data : dict) : string * WorkflowEngine * World :=
  @execute_workflow example_platform eng (mk_workflow d) input_data world0.

(** The task of the execution submitted last, run with the given fuel. *)
Definition run_submitted (fuel : nat) (s : string * WorkflowEngine * World)
    : option (WorkflowEngine * list (string * dict) * World) :=
  @_execute_workflow_async example_platform fuel s.1.2 s.1.1 s.2.

(** A trigger with an edge to a node the definition does not declare. *)
Definition dangling_definition : WorkflowDefinition :=
  {| nodes := [mk_node "a" "trigger" ∅]; edges := [mk_edge "a" "ghost"] |}.

(** The loop of the entered cycle after its entry node: [a] waits for [b],
    which is not in the queue. *)
Definition stuck_state : LoopState :=
  {| execution_queue := ["a"];
     completed_nodes := {[ "e" ]};
     node_outputs := ∅;
     current_node := Some "e";
     dispatched := [("e", ∅)] |}.

(** A node of the type [schedule], which has no executor, in front of an
    action. *)
Definition scheduled_definition : WorkflowDefinition :=
  {| nodes := [mk_node "start" "schedule" ∅; mk_node "send" "action" ∅];
     edges := [mk_edge "start" "send"] |}.

Definition scheduled_rank (n : string) : nat :=
  if decide (n = "start") then 0 else 1.

(** A top-level input with two items of data. *)
Definition two_items : dict := {[ "data" := VList [VInt 1; VInt 2] ]}.

(** The output a state keeps for a node, and the number of records a
    connector output reports. *)
Definition output_of (c : string) (st : LoopState) : dict :=
  default ∅ (node_outputs st !! c).

Definition records_fetched (out : dict) : option value :=
  match out !! "result" with
  | Some (VDict r) => r !! "records_fetched"
  | _ => None
  end.

(** A request to create an execution, and three records for the listing. *)
Definition example_request : ExecutionCreate :=
  {| ec_workflow_id := "workflow-1"; ec_input := Some ∅;
     ec_executed_by := None |}.

Definition listed (i : string) (wf : string) (s : ExecutionStatus)
    (t : option Z) : Execution :=
  {| exec_id := i; workflow_id := wf; status := s; input := None;
     output := None; error := None; started_at := t; completed_at := None;
     executed_by := None |}.

Definition example_listing : list Execution :=
  [listed "x" "workflow-1" SUCCESS (Some 10%Z);
   listed "y" "workflow-2" PENDING None;
   listed "z" "workflow-1" RUNNING (Some 30%Z)].

(** Two nodes and one edge, into [b] from a node the definition does not
    declare; the graph has no cycle. *)
Definition orphan_definition : WorkflowDefinition :=
  {| nodes := [mk_node "a" "trigger" ∅; mk_node "b" "action" ∅];
     edges := [mk_edge "ghost" "b"] |}.

Definition orphan_rank (n : string) : nat :=
  if decide (n = "ghost") then 0 else 1.

(** The [completed_nodes] entry of the output of a record. *)
Definition completed_entry (e : Execution) : option value :=
  output e ≫= (.!! "completed_nodes").

(** A top-level input whose ["data"] entry is a number. *)
Definition number_data : dict := {[ "data" := VInt 5 ]}.

(** A single agent node. *)
Definition agent_definition : WorkflowDefinition :=
  {| nodes := [mk_node "agent" "agent" ∅]; edges := [] |}.

(** The loop of a definition on the built-in executors, from the first
    reading of the clock; the state and the world it ends with. *)
Definition example_loop (d : WorkflowDefinition) (top : dict) (fuel : nat)
    : option (LoopExit * LoopState * World) :=
  while_loop (@builtin_executors example_platform) d (Some top) fuel
    (loop_init d) world0.

Definition final_state (d : WorkflowDefinition) (top : dict) (fuel : nat)
    : LoopState :=
  from_option (λ r, r.1.2) (loop_init d) (example_loop d top fuel).

Definition final_world (d : WorkflowDefinition) (top : dict) (fuel : nat)
    : World :=
  from_option snd world0 (example_loop d top fuel).

(** The input of the call of the executor at a position of the trace. *)
Definition input_at (i : nat) (st : LoopState) : dict :=
  default ∅ (snd <$> dispatched st !! i).

(** The engine, the calls and the world a task that ended has left. *)
Definition finished_engine
    (r : option (WorkflowEngine * list (string * dict) * World))
    : WorkflowEngine :=
  from_option (λ x, x.1.1)
    {| executors := ∅; running_executions := ∅ |} r.

Definition finished_calls
    (r : option (WorkflowEngine * list (string * dict) * World))
    : list (string * dict) :=
  from_option (λ x, x.1.2) [] r.

Definition finished_world
    (r : option (WorkflowEngine * list (string * dict) * World)) : World :=
  from_option snd {| clock_reads := 0; uuid_draws := 0; loop_tasks := [] |} r.

(** The status the table of an engine holds for an identifier. *)
Definition status_of (eng : WorkflowEngine) (execution_id : string)
    : option ExecutionStatus :=
  (λ es, status (es_execution es)) <$> running_executions eng !! execution_id.

(** The record the table of an engine holds for an identifier. *)
Definition record_of (eng : WorkflowEngine) (execution_id : string)
    : option Execution :=
  es_execution <$> running_executions eng !! execution_id.

(** A fresh engine, and what [execute_workflow] makes of a definition on it. *)
Definition fresh_engine : WorkflowEngine :=
  @WorkflowEngine_init example_platform.

Definition submit (d : WorkflowDefinition) (input_data : dict)
    : string * WorkflowEngine * World :=
  @execute_workflow example_platform fresh_engine (mk_workflow d) input_data world0.

(** An execution of the single trigger is submitted and cancelled before the
    event loop has started its task. *)
Definition cancelled_before_start : bool * WorkflowEngine * World :=
  @cancel_execution example_platform (submit single_definition ∅).1.2
    (submit single_definition ∅).1.1 (submit single_definition ∅).2.

Definition example_record (s : ExecutionStatus) : Execution :=
  {| exec_id := "execution-0"; workflow_id := "workflow-1"; status := s;
     input := Some ∅; output := None; error := None;
     started_at := Some 1700000000%Z; completed_at := None;
     executed_by := None |}.

(** ** Properties *)

Section properties.
Context {platform : Platform}.

(** *** cancel_execution *)

(** C9: for an identifier that is not in the table of the engine,
    [cancel_execution] returns [False] (it has no raising path) and leaves
    the table, the engine and the world as they were. *)
Theorem cancel_execution_unknown (eng : WorkflowEngine) (execution_id : string)
    (w : World) :
  running_executions eng !! execution_id = None →
  cancel_execution eng execution_id w = (false, eng, w).
Proof. intros Hnone. unfold cancel_execution. by rewrite Hnone. Qed.

Lemma not_terminal_running (s : ExecutionStatus) :
  s = PENDING ∨ s = RUNNING ↔ ¬ terminal s.
Proof. unfold terminal. destruct s; intuition congruence. Qed.

Lemma terminal_elem_of (s : ExecutionStatus) :
  terminal s ↔ s ∈ [SUCCESS; FAILED; CANCELLED].
Proof. unfold terminal. rewrite !elem_of_cons, elem_of_nil. tauto. Qed.

(** C4 (as the code has it): cancelling a PENDING or RUNNING execution
    returns [True], sets the status to CANCELLED, the error to
    ["Execution cancelled by user"] and [completed_at] to the time read,
    and changes nothing else; cancelling a SUCCESS, FAILED or CANCELLED
    execution returns [False] from the engine (the endpoint raises an
    [HTTPException] with status 400) and leaves table and world as they
    were. *)
Theorem cancel_execution_known (eng : WorkflowEngine)
    (db : gmap string Execution) (execution_id : string)
    (es : ExecutionState) (e : Execution) (w : World) :
  running_executions eng !! execution_id = Some es →
  db !! execution_id = Some e →
  (status (es_execution es) = PENDING ∨ status (es_execution es) = RUNNING →
     cancel_execution eng execution_id w =
       (true,
        set_running
          (<[execution_id :=
               set_execution
                 (cancelled_by_user (utcnow_at (clock_reads w)) (es_execution es)) es]>
             (running_executions eng)) eng,
        tick w))
  ∧ (terminal (status (es_execution es)) →
     cancel_execution eng execution_id w = (false, eng, w))
  ∧ (status e = PENDING ∨ status e = RUNNING →
     ∃ response,
       route_cancel_execution db execution_id w =
         (inr response,
          <[execution_id := cancelled_by_user (utcnow_at (clock_reads w)) e]> db,
          tick w))
  ∧ (terminal (status e) →
     route_cancel_execution db execution_id w =
       (inl {| status_code := 400;
               detail := "Cannot cancel execution that is not pending or running" |},
        db, w)).
Proof.
  intros Hes He. unfold cancel_execution, route_cancel_execution.
  rewrite Hes, He. repeat split.
  - intros Hs. apply not_terminal_running in Hs.
    rewrite terminal_elem_of in Hs. by rewrite decide_False.
  - intros Hs. rewrite terminal_elem_of in Hs. by rewrite decide_True.
  - intros Hs. rewrite decide_False; [by eexists|].
    rewrite !elem_of_cons, elem_of_nil. tauto.
  - intros Hs. rewrite decide_True; [done|].
    unfold terminal in Hs. rewrite !elem_of_cons, elem_of_nil.
    destruct Hs as [->| [->| ->]]; intuition discriminate.
Qed.

(** *** execute_workflow *)

(** The record [execute_workflow] stores. *)
Lemma execute_workflow_spec (eng : WorkflowEngine) (workflow : Workflow)
    (input_data : dict) (w : World) :
  ∃ es,
    running_executions (execute_workflow eng workflow input_data w).1.2
      !! (execute_workflow eng workflow input_data w).1.1 = Some es
    ∧ es_workflow es = workflow
    ∧ input (es_execution es) = Some input_data
    ∧ started_at (es_execution es) = Some (utcnow_at (clock_reads w))
    ∧ executors (execute_workflow eng workflow input_data w).1.2 = executors eng.
Proof.
  unfold execute_workflow. simpl. eexists. split; [apply lookup_insert_eq|done].
Qed.

(** C1 (as the code has it): [execute_workflow] validates nothing.  For
    every definition, cyclic or not, it stores a record with status
    RUNNING under the identifier it returns and creates the background
    task. *)
Theorem execute_workflow_always_starts (eng : WorkflowEngine)
    (workflow : Workflow) (input_data : dict) (w : World) :
  ∃ es,
    running_executions (execute_workflow eng workflow input_data w).1.2
      !! (execute_workflow eng workflow input_data w).1.1 = Some es
    ∧ status (es_execution es) = RUNNING
    ∧ es_workflow es = workflow
    ∧ input (es_execution es) = Some input_data
    ∧ loop_tasks (execute_workflow eng workflow input_data w).2
      = loop_tasks w ++ [(execute_workflow eng workflow input_data w).1.1].
Proof.
  unfold execute_workflow. simpl. eexists. split.
  - apply lookup_insert_eq.
  - done.
Qed.

(** *** The background task and the status it finds *)

(** The task writes SUCCESS or FAILED whatever status the record has when
    the loop ends: it never reads [execution.status]. *)
Lemma task_overwrites_status (fuel : nat) (eng eng' : WorkflowEngine)
    (execution_id : string) (es : ExecutionState)
    (calls : list (string * dict)) (w w' : World) :
  running_executions eng !! execution_id = Some es →
  _execute_workflow_async fuel eng execution_id w = Some (eng', calls, w') →
  status_of eng' execution_id = Some SUCCESS
  ∨ status_of eng' execution_id = Some FAILED.
Proof.
  intros Hes. unfold _execute_workflow_async. rewrite Hes.
  destruct (while_loop _ _ _ _ _ _) as [[[[|e] st] w1]|]; [| |done];
    intros [= <- <- <-]; unfold status_of; simpl;
    rewrite lookup_insert_eq; simpl; auto.
Qed.

End properties.

(** *** Closed instances *)

Lemma cancel_execution_unknown_witness :
  running_executions (submit single_definition ∅).1.2 !! "execution-7" = None
  ∧ @cancel_execution example_platform (submit single_definition ∅).1.2
      "execution-7" (submit single_definition ∅).2
    = (false, (submit single_definition ∅).1.2, (submit single_definition ∅).2).
Proof.
  split; [reflexivity|].
  apply cancel_execution_unknown. reflexivity.
Defined.

Lemma cancel_execution_known_witness :
  ∃ es,
    running_executions (submit single_definition ∅).1.2 !! "execution-0" = Some es
    ∧ status (es_execution es) = RUNNING
    ∧ (@cancel_execution example_platform (submit single_definition ∅).1.2
         "execution-0" (submit single_definition ∅).2).1.1 = true
    ∧ status_of
        (@cancel_execution example_platform (submit single_definition ∅).1.2
           "execution-0" (submit single_definition ∅).2).1.2 "execution-0"
      = Some CANCELLED
    ∧ (@route_cancel_execution example_platform
         {[ "execution-0" := example_record SUCCESS ]} "execution-0" world0).1.2
      = {[ "execution-0" := example_record SUCCESS ]}.
Proof.
  eexists. split; [reflexivity|]. split; [reflexivity|].
  pose proof (@cancel_execution_known example_platform
                (submit single_definition ∅).1.2
                {[ "execution-0" := example_record SUCCESS ]}
                "execution-0" _ (example_record SUCCESS)
                (submit single_definition ∅).2 eq_refl eq_refl)
    as (Hrun & _ & _ & _).
  pose proof (@cancel_execution_known example_platform
                (submit single_definition ∅).1.2
                {[ "execution-0" := example_record SUCCESS ]}
                "execution-0" _ (example_record SUCCESS)
                world0 eq_refl eq_refl)
    as (_ & _ & _ & Hterm).
  rewrite (Hrun (or_intror eq_refl)).
  rewrite (Hterm (or_introl eq_refl)).
  repeat split; reflexivity.
Defined.

(** C4, the claim as the specification words it, fails: the error a
    cancelled execution carries is not ["cancelled by caller"]. *)
Lemma cancel_execution_error_text :
  status_of (submit single_definition ∅).1.2 "execution-0" = Some RUNNING
  ∧ (λ es, error (es_execution es)) <$>
      running_executions
        (@cancel_execution example_platform (submit single_definition ∅).1.2
           "execution-0" (submit single_definition ∅).2).1.2 !! "execution-0"
    ≠ Some (Some "cancelled by caller").
Proof. split; [reflexivity|]. vm_compute. discriminate. Qed.

Lemma cyclic_definition_has_cycle : has_cycle cyclic_definition.
Proof.
  exists "a". eapply tc_l; [|apply tc_once].
  - exists (mk_edge "a" "b"). repeat split. set_solver.
  - exists (mk_edge "b" "a"). repeat split. set_solver.
Qed.

(** C1, the claim as the specification words it, fails: a cyclic definition
    is accepted, a record is stored for it and its task is created. *)
Lemma cyclic_definition_is_started :
  has_cycle cyclic_definition
  ∧ (submit cyclic_definition ∅).1.1 = "execution-0"
  ∧ status_of (submit cyclic_definition ∅).1.2 "execution-0" = Some RUNNING
  ∧ loop_tasks (submit cyclic_definition ∅).2 = ["execution-0"].
Proof.
  split; [apply cyclic_definition_has_cycle|].
  repeat split; reflexivity.
Qed.

(** C2 at a failing input: an execution is submitted and cancelled before the
    event loop has started its task; [cancel_execution] returns [True] and
    the status is CANCELLED; the task then runs the trigger node and
    overwrites the status with SUCCESS. *)
Lemma cancelled_execution_overwritten :
  (submit single_definition ∅).1.1 = "execution-0"
  ∧ status_of (submit single_definition ∅).1.2 "execution-0" = Some RUNNING
  ∧ cancelled_before_start.1.1 = true
  ∧ status_of cancelled_before_start.1.2 "execution-0" = Some CANCELLED
  ∧ (λ r, (r.1.2.*1, status_of r.1.1 "execution-0")) <$>
      @start_next_task example_platform 10
        cancelled_before_start.1.2 cancelled_before_start.2
    = Some (["trigger"], Some SUCCESS).
Proof. repeat split; vm_compute; reflexivity. Qed.

(** ** The execution graph *)

Section graph_facts.
Variable d : WorkflowDefinition.

Lemma nodes_by_id_foldl (l : list WorkflowNode) (m : gmap string WorkflowNode)
    (n : string) (node : WorkflowNode) :
  foldl (λ m node, <[node_id node := node]> m) m l !! n = Some node →
  (node ∈ l ∧ node_id node = n) ∨ m !! n = Some node.
Proof.
  revert m. induction l as [|x l IH]; intros m; simpl; [auto|].
  intros Hl. destruct (IH _ Hl) as [[Hin Hid]|Hm].
  - left. split; [by apply elem_of_cons; right|done].
  - destruct (decide (node_id x = n)) as [Heq|Hne].
    + rewrite Heq, lookup_insert_eq in Hm. injection Hm as ->.
      left. split; [apply elem_of_cons; by left|done].
    + rewrite lookup_insert_ne in Hm by done. by right.
Qed.

Lemma nodes_by_id_Some (n : string) (node : WorkflowNode) :
  nodes_by_id d !! n = Some node → node ∈ nodes d ∧ node_id node = n.
Proof.
  intros Hl. apply nodes_by_id_foldl in Hl as [?|Hl]; [done|].
  by rewrite lookup_empty in Hl.
Qed.

Lemma nodes_by_id_foldl_is_Some (l : list WorkflowNode)
    (m : gmap string WorkflowNode) (n : string) :
  n ∈ node_id <$> l ∨ is_Some (m !! n) →
  is_Some (foldl (λ m node, <[node_id node := node]> m) m l !! n).
Proof.
  revert m. induction l as [|x l IH]; intros m; simpl.
  - intros [Hin|?]; [|done]. by apply elem_of_nil in Hin.
  - intros [Hin|Hm]; apply IH.
    + apply elem_of_cons in Hin as [->|Hin]; [right|by left].
      rewrite lookup_insert_eq. by eexists.
    + right. destruct (decide (node_id x = n)) as [<-|Hne].
      * rewrite lookup_insert_eq. by eexists.
      * by rewrite lookup_insert_ne.
Qed.

Lemma nodes_by_id_declared (n : string) :
  n ∈ node_ids d → is_Some (nodes_by_id d !! n).
Proof. intros Hn. apply nodes_by_id_foldl_is_Some. by left. Qed.

(** The list kept under a key of [edges_by_from] is the edges that leave
    the key, in the order of the definition. *)
Lemma edges_by_from_foldl (l : list WorkflowEdge)
    (m : gmap string (list WorkflowEdge)) (n : string) :
  default []
    (foldl (λ m edge,
              <[from_node edge := default [] (m !! from_node edge) ++ [edge]]> m)
           m l !! n)
  = default [] (m !! n) ++ filter (λ e, from_node e = n) l.
Proof.
  revert m. induction l as [|x l IH]; intros m; simpl.
  - by rewrite app_nil_r.
  - rewrite IH. rewrite filter_cons.
    destruct (decide (from_node x = n)) as [Heq|Hne].
    + rewrite Heq, lookup_insert_eq. simpl. by rewrite <- app_assoc.
    + by rewrite lookup_insert_ne.
Qed.

Lemma edges_by_from_lookup (n : string) :
  default [] (edges_by_from d !! n) = filter (λ e, from_node e = n) (edges d).
Proof.
  unfold edges_by_from. rewrite edges_by_from_foldl. by rewrite lookup_empty.
Qed.

Lemma elem_of_successors (n m : string) :
  m ∈ to_node <$> default [] (edges_by_from d !! n) ↔ edge_rel d n m.
Proof.
  rewrite edges_by_from_lookup, list_elem_of_fmap. unfold edge_rel. split.
  - intros (e & -> & He). apply list_elem_of_filter in He as [Hf He]. eauto.
  - intros (e & He & Hf & Ht). exists e. split; [done|].
    apply list_elem_of_filter. done.
Qed.

Lemma elem_of_dependencies (n p : string) :
  p ∈ dependencies d n ↔ edge_rel d p n.
Proof.
  unfold dependencies, edge_rel. rewrite list_elem_of_fmap. split.
  - intros (e & -> & He). apply list_elem_of_filter in He as [Ht He]. eauto.
  - intros (e & He & Hf & Ht). exists e. split; [done|].
    apply list_elem_of_filter. done.
Qed.

Lemma elem_of_incoming_edges (n : string) :
  n ∈ incoming_edges d ↔ ∃ p, edge_rel d p n.
Proof.
  unfold incoming_edges, edge_rel.
  rewrite elem_of_list_to_set, list_elem_of_fmap. split.
  - intros (e & -> & He). eauto.
  - intros (p & e & He & _ & Ht). eauto.
Qed.

Lemma elem_of_entry_nodes (n : string) :
  n ∈ entry_nodes d ↔ n ∈ node_ids d ∧ ¬ ∃ p, edge_rel d p n.
Proof.
  unfold entry_nodes, node_ids. rewrite !list_elem_of_fmap. split.
  - intros (node & -> & Hn). apply list_elem_of_filter in Hn as [Hi Hn].
    rewrite elem_of_incoming_edges in Hi. eauto.
  - intros [(node & -> & Hn) Hi]. exists node. split; [done|].
    apply list_elem_of_filter. by rewrite elem_of_incoming_edges.
Qed.

(** A node without dependencies is an entry node. *)
Lemma entry_nodes_no_dependencies (n : string) :
  n ∈ node_ids d → dependencies d n = [] → n ∈ entry_nodes d.
Proof.
  intros Hn Hd. apply elem_of_entry_nodes. split; [done|].
  intros (p & Hp). apply elem_of_dependencies in Hp.
  rewrite Hd in Hp. by apply elem_of_nil in Hp.
Qed.

End graph_facts.

(** ** The loop of the background task *)

Section loop_facts.
Variable execs : gmap string Executor.
Variable d : WorkflowDefinition.
Variable top_input : option dict.

Abbreviation body := (loop_body execs d top_input).
Abbreviation run := (while_loop execs d top_input).

(** The three ways an iteration goes on: the node was completed already,
    it waits for a dependency, or its executor returned. *)
Lemma loop_body_Next (cur : string) (queue : list string)
    (st st' : LoopState) (w w' : World) :
  body cur queue st w = Next st' w' →
  (cur ∈ completed_nodes st ∧ w' = w
   ∧ st' = {| execution_queue := queue;
              completed_nodes := completed_nodes st;
              node_outputs := node_outputs st;
              current_node := current_node st;
              dispatched := dispatched st |})
  ∨ ((cur ∉ completed_nodes st) ∧ w' = w
     ∧ ¬ Forall (λ dep, dep ∈ completed_nodes st) (dependencies d cur)
     ∧ st' = {| execution_queue := queue ++ [cur];
                completed_nodes := completed_nodes st;
                node_outputs := node_outputs st;
                current_node := current_node st;
                dispatched := dispatched st |})
  ∨ ((cur ∉ completed_nodes st)
     ∧ Forall (λ dep, dep ∈ completed_nodes st) (dependencies d cur)
     ∧ ∃ node top (executor : Executor) out,
         nodes_by_id d !! cur = Some node
         ∧ top_input = Some top
         ∧ execs !! node_type node = Some executor
         ∧ executor node (prepare_input top (dependencies d cur) (node_outputs st)) w
           = (Ok out, w')
         ∧ st' = {| execution_queue :=
                      queue ++ (to_node <$> default [] (edges_by_from d !! cur));
                    completed_nodes := {[ cur ]} ∪ completed_nodes st;
                    node_outputs := <[cur := out]> (node_outputs st);
                    current_node := Some cur;
                    dispatched :=
                      dispatched st ++
                        [(cur, prepare_input top (dependencies d cur) (node_outputs st))] |}).
Proof.
  unfold loop_body. destruct (decide (cur ∈ _)) as [Hc|Hc].
  { intros [= <- <-]. by left. }
  destruct (decide (Forall _ _)) as [Hd|Hd].
  2:{ intros [= <- <-]. right. by left. }
  destruct (nodes_by_id d !! cur) as [node|] eqn:Hnode; [|done].
  destruct top_input as [top|] eqn:Htop; [|done].
  destruct (execs !! node_type node) as [executor|] eqn:Hex; [|done].
  destruct (executor node _ w) as [[out|e] w1] eqn:Hrun; [|done].
  intros [= <- <-]. right. right. repeat split; [done..|].
  by exists node, top, executor, out.
Qed.

(** An iteration that leaves the loop leaves it by an exception, with the
    completed nodes and their outputs as they were; the calls made grow by
    at most the call that raised. *)
Lemma loop_body_Stop (cur : string) (queue : list string)
    (st st' : LoopState) (exit : LoopExit) (w w' : World) :
  body cur queue st w = Stop exit st' w' →
  (cur ∉ completed_nodes st)
  ∧ Forall (λ dep, dep ∈ completed_nodes st) (dependencies d cur)
  ∧ (∃ e, exit = Raised e)
  ∧ completed_nodes st' = completed_nodes st
  ∧ node_outputs st' = node_outputs st
  ∧ (dispatched st' = dispatched st
     ∨ ∃ top, top_input = Some top
         ∧ dispatched st' =
             dispatched st ++
               [(cur, prepare_input top (dependencies d cur) (node_outputs st))]).
Proof.
  unfold loop_body. destruct (decide (cur ∈ _)) as [Hc|Hc]; [done|].
  destruct (decide (Forall _ _)) as [Hd|Hd]; [|done].
  destruct (nodes_by_id d !! cur) as [node|] eqn:Hnode.
  2:{ intros [= <- <- <-]. simpl. repeat split; eauto. }
  destruct top_input as [top|] eqn:Htop.
  2:{ intros [= <- <- <-]. simpl. repeat split; eauto. }
  destruct (execs !! node_type node) as [executor|] eqn:Hex.
  2:{ intros [= <- <- <-]. simpl. repeat split; eauto. }
  destruct (executor node _ w) as [[out|e] w1] eqn:Hrun; [done|].
  intros [= <- <- <-]. simpl. repeat split; eauto.
Qed.

(** Invariants of the loop: what every iteration keeps ([P]) holds when the
    loop ends, and what an iteration that raises establishes ([Q]) holds
    when the loop is left by an exception. *)
Lemma while_loop_invariant (P : LoopState → Prop) (Q : exn → LoopState → Prop) :
  (∀ cur queue st w st' w',
     P st → execution_queue st = cur :: queue →
     body cur queue st w = Next st' w' → P st') →
  (∀ cur queue st w e st' w',
     P st → execution_queue st = cur :: queue →
     body cur queue st w = Stop (Raised e) st' w' → Q e st') →
  ∀ fuel st w exit st' w',
    P st → run fuel st w = Some (exit, st', w') →
    match exit with
    | Finished => P st' ∧ execution_queue st' = []
    | Raised e => Q e st'
    end.
Proof.
  intros Hnext Hstop fuel.
  induction fuel as [|fuel IH]; intros st w exit st' w' HP; simpl; [done|].
  destruct (execution_queue st) as [|cur queue] eqn:Hq.
  { intros [= <- <- <-]. done. }
  destruct (body cur queue st w) as [st1 w1|exit1 st1 w1] eqn:Hb.
  - apply IH. eauto.
  - intros [= <- <- <-].
    pose proof (loop_body_Stop _ _ _ _ _ _ _ Hb) as (_ & _ & [e ->] & _).
    eauto.
Qed.

(** More fuel does not change the result of a loop that ended. *)
Lemma while_loop_fuel_mono (fuel fuel' : nat) (st : LoopState) (w : World)
    (r : LoopExit * LoopState * World) :
  (fuel ≤ fuel')%nat → run fuel st w = Some r → run fuel' st w = Some r.
Proof.
  revert fuel' st w. induction fuel as [|fuel IH]; intros fuel' st w Hle; [done|].
  destruct fuel' as [|fuel']; [lia|]. simpl.
  destruct (execution_queue st) as [|cur queue]; [done|].
  destruct (body cur queue st w); [|done].
  apply IH. lia.
Qed.

End loop_facts.

(** ** The input of a node *)

Section input_facts.
Variable execs : gmap string Executor.
Variable d : WorkflowDefinition.
Variable top : dict.

Lemma prepare_input_ext (deps : list string) (outs outs' : gmap string dict)
    (acc : dict) :
  (∀ p, p ∈ deps → outs !! p = outs' !! p) →
  prepare_input acc deps outs = prepare_input acc deps outs'.
Proof.
  unfold prepare_input. revert acc.
  induction deps as [|p deps IH]; intros acc Hext; simpl; [done|].
  rewrite <- (Hext p) by (apply elem_of_cons; by left).
  apply IH. intros p' Hp'. apply Hext. apply elem_of_cons. by right.
Qed.

Lemma prepare_input_two (p q : string) (outs : gmap string dict) (op oq : dict) :
  outs !! p = Some op → outs !! q = Some oq →
  prepare_input top [p; q] outs = oq ∪ (op ∪ top).
Proof. intros Hp Hq. unfold prepare_input. simpl. by rewrite Hp, Hq. Qed.

Lemma inputs_inv_init : inputs_inv d top (loop_init d).
Proof.
  split; simpl.
  - intros n. rewrite lookup_empty. split; [set_solver|by intros [? ?]].
  - intros c inp Hin. by apply elem_of_nil in Hin.
Qed.

Lemma inputs_inv_Next (cur : string) (queue : list string)
    (st st' : LoopState) (w w' : World) :
  inputs_inv d top st →
  loop_body execs d (Some top) cur queue st w = Next st' w' →
  inputs_inv d top st'.
Proof.
  intros [Hdom Hcalls] Hb.
  apply loop_body_Next in Hb
    as [(_ & _ & ->)|[(_ & _ & _ & ->)|(Hcur & Hdeps & node & top' & ex & out
                                         & _ & [= <-] & _ & _ & ->)]];
    [done..|].
  split; simpl.
  - intros n. rewrite elem_of_union, elem_of_singleton, Hdom.
    destruct (decide (cur = n)) as [->|Hne].
    + rewrite lookup_insert_eq. split; [by eexists|by left].
    + rewrite lookup_insert_ne by done. split; [intros [?|?]; congruence|by right].
  - assert (∀ c, Forall (λ p, p ∈ completed_nodes st) (dependencies d c) →
              prepare_input top (dependencies d c) (<[cur := out]> (node_outputs st))
              = prepare_input top (dependencies d c) (node_outputs st)) as Hsame.
    { intros c Hc. apply prepare_input_ext. intros p Hp.
      rewrite Forall_forall in Hc. specialize (Hc p Hp).
      rewrite lookup_insert_ne; [done|]. by intros ->. }
    intros c inp Hin. apply elem_of_app in Hin as [Hin|Hin].
    + destruct (Hcalls c inp Hin) as [-> Hc]. split; [by rewrite Hsame|].
      eapply Forall_impl; [exact Hc|].
      intros p Hp. apply elem_of_union. by right.
    + apply list_elem_of_singleton in Hin as [= -> ->].
      split; [by rewrite Hsame|].
      eapply Forall_impl; [exact Hdeps|].
      intros p Hp. apply elem_of_union. by right.
Qed.

Lemma inputs_inv_Stop (cur : string) (queue : list string)
    (st st' : LoopState) (exit : LoopExit) (w w' : World) :
  inputs_inv d top st →
  loop_body execs d (Some top) cur queue st w = Stop exit st' w' →
  inputs_inv d top st'.
Proof.
  intros [Hdom Hcalls] Hb.
  apply loop_body_Stop in Hb as (_ & Hdeps & _ & Hc & Ho & Hd).
  split.
  - intros n. by rewrite Hc, Ho.
  - intros c inp. rewrite Hc, Ho.
    destruct Hd as [->|(top' & [= <-] & ->)]; [by apply Hcalls|].
    intros Hin. apply elem_of_app in Hin as [Hin|Hin]; [by apply Hcalls|].
    by apply list_elem_of_singleton in Hin as [= -> ->].
Qed.

Lemma inputs_inv_run (fuel : nat) (st st' : LoopState) (exit : LoopExit)
    (w w' : World) :
  inputs_inv d top st →
  while_loop execs d (Some top) fuel st w = Some (exit, st', w') →
  inputs_inv d top st'.
Proof.
  intros Hinv Hrun.
  pose proof (while_loop_invariant execs d (Some top) (inputs_inv d top)
                (λ _, inputs_inv d top)) as Hgen.
  specialize (Hgen (λ cur queue st w st' w' HP _ Hb, inputs_inv_Next _ _ _ _ _ _ HP Hb)).
  specialize (Hgen (λ cur queue st w e st' w' HP _ Hb, inputs_inv_Stop _ _ _ _ _ _ _ HP Hb)).
  specialize (Hgen fuel st w exit st' w' Hinv Hrun).
  destruct exit; [by destruct Hgen|done].
Qed.

(** C3 (as the code has it): when the edges into a node come from [p] and
    then from [q], in the order of [definition.edges], the input of every
    call of the executor of that node is the top-level input updated with
    the output of [p] and then with the output of [q]: it has every key of
    both outputs, and on a key they share the value of [q], the
    predecessor of the later edge, whatever the order of the two
    identifiers. *)
Theorem input_merges_in_edge_order (fuel : nat) (exit : LoopExit)
    (st : LoopState) (w w' : World) (c p q : string) (inp : dict) :
  while_loop execs d (Some top) fuel (loop_init d) w = Some (exit, st, w') →
  (c, inp) ∈ dispatched st →
  dependencies d c = [p; q] →
  ∃ op oq,
    node_outputs st !! p = Some op
    ∧ node_outputs st !! q = Some oq
    ∧ inp = oq ∪ (op ∪ top)
    ∧ (∀ k, is_Some (op !! k) ∨ is_Some (oq !! k) → is_Some (inp !! k))
    ∧ (∀ k v, oq !! k = Some v → inp !! k = Some v).
Proof.
  intros Hrun Hin Hdeps.
  destruct (inputs_inv_run _ _ _ _ _ _ inputs_inv_init Hrun) as [Hdom Hcalls].
  destruct (Hcalls c inp Hin) as [-> Hc]. rewrite Hdeps in *.
  apply Forall_cons in Hc as [Hp Hc]. apply Forall_cons in Hc as [Hq _].
  apply Hdom in Hp as [op Hp]. apply Hdom in Hq as [oq Hq].
  exists op, oq. rewrite (prepare_input_two p q _ op oq) by done.
  repeat split; [done..| |].
  - intros k [[v Hk]|[v Hk]].
    + destruct (oq !! k) as [v'|] eqn:Hk'.
      * exists v'. by apply lookup_union_Some_l.
      * exists v. rewrite lookup_union_r by done. by apply lookup_union_Some_l.
    + exists v. by apply lookup_union_Some_l.
  - intros k v Hk. by apply lookup_union_Some_l.
Qed.

End input_facts.

(** ** Scheduling on an acyclic definition *)

Section schedule_facts.
Variable execs : gmap string Executor.
Variable d : WorkflowDefinition.
Variable top_input : option dict.
Hypothesis d_well_formed : well_formed d.
Hypothesis d_acyclic : acyclic d.

Lemma schedule_inv_init : schedule_inv d (loop_init d).
Proof.
  unfold schedule_inv, loop_init. simpl. split_and!.
  - intros n Hn. by apply elem_of_entry_nodes in Hn as [? _].
  - intros n Hn. by apply elem_of_empty in Hn.
  - intros n _ _ [Hn|(p & Hp & _)]; [done|]. by apply elem_of_empty in Hp.
  - constructor.
  - intros n. split; intros Hn.
    + by apply elem_of_nil in Hn.
    + by apply elem_of_empty in Hn.
Qed.

Lemma schedule_inv_Next (cur : string) (queue : list string)
    (st st' : LoopState) (w w' : World) :
  schedule_inv d st → execution_queue st = cur :: queue →
  loop_body execs d top_input cur queue st w = Next st' w' →
  schedule_inv d st'.
Proof.
  intros (Hq & Hc & Hfront & Hnd & Hcalls) Hqueue Hb.
  assert (∀ n, n ∈ queue → n ∈ node_ids d) as Hq'.
  { intros n Hn. apply Hq. rewrite Hqueue. apply elem_of_cons. by right. }
  assert (cur ∈ node_ids d) as Hcur_decl.
  { apply Hq. rewrite Hqueue. apply elem_of_cons. by left. }
  apply loop_body_Next in Hb
    as [(Hcur & _ & ->)|[(Hcur & _ & _ & ->)|(Hcur & Hdeps & node & top & ex & out
                                               & _ & _ & _ & _ & ->)]];
    unfold schedule_inv; simpl.
  - split_and!; try done.
    intros n Hn Hnc Hel. specialize (Hfront n Hn Hnc Hel).
    rewrite Hqueue in Hfront. apply elem_of_cons in Hfront as [->|?]; done.
  - split_and!; try done.
    + intros n Hn. apply elem_of_app in Hn as [Hn|Hn]; [by apply Hq'|].
      by apply list_elem_of_singleton in Hn as ->.
    + intros n Hn Hnc Hel. specialize (Hfront n Hn Hnc Hel).
      rewrite Hqueue in Hfront. apply elem_of_app.
      apply elem_of_cons in Hfront as [->|?]; [right|by left].
      by apply list_elem_of_singleton.
  - rewrite fmap_app. simpl. split_and!.
    + intros n Hn. apply elem_of_app in Hn as [Hn|Hn]; [by apply Hq'|].
      apply elem_of_successors in Hn as (e & He & _ & <-).
      by apply d_well_formed.
    + intros n Hn. apply elem_of_union in Hn as [Hn|Hn]; [|by apply Hc].
      by apply elem_of_singleton in Hn as ->.
    + intros n Hn Hnc Hel.
      apply not_elem_of_union in Hnc as [Hne Hnc].
      apply not_elem_of_singleton in Hne.
      apply elem_of_app.
      assert (n ∈ cur :: queue → n ∈ queue) as Htail.
      { intros Hin. apply elem_of_cons in Hin as [?|?]; done. }
      rewrite Hqueue in Hfront.
      destruct Hel as [Hentry|(p & Hp & Hedge)]; [left; auto|].
      apply elem_of_union in Hp as [Hp|Hp].
      * apply elem_of_singleton in Hp as ->. right.
        by apply elem_of_successors.
      * left. apply Htail, Hfront; eauto.
    + apply NoDup_app. split_and!; [done| |apply NoDup_singleton].
      intros n Hn Hn'. apply list_elem_of_singleton in Hn' as ->.
      by apply Hcalls in Hn.
    + intros n. rewrite elem_of_app, list_elem_of_singleton, elem_of_union,
        elem_of_singleton, Hcalls. tauto.
Qed.

(** From a declared node that is not completed, walking back along edges
    through nodes that are not completed ends, as the graph has no cycle,
    at a node that is ready; the invariant puts that node in the queue. *)
Lemma ready_node_in_queue (st : LoopState) :
  schedule_inv d st →
  ∀ (k : nat) (x : string) (vis : list string),
    (length (node_ids d) < k + length vis)%nat →
    NoDup vis →
    (∀ c, c ∈ vis → c ∈ node_ids d) →
    (∀ c, c ∈ vis → tc (edge_rel d) x c) →
    x ∈ node_ids d → x ∉ completed_nodes st →
    ∃ y, ready d st y ∧ y ∈ execution_queue st.
Proof.
  intros (Hq & Hc & Hfront & _). induction k as [|k IH];
    intros x vis Hlen Hnd Hdecl Hreach Hx Hxc.
  { simpl in Hlen. apply NoDup_submseteq in Hdecl; [|done].
    apply submseteq_length in Hdecl. lia. }
  destruct (decide (Forall (λ dep, dep ∈ completed_nodes st) (dependencies d x)))
    as [Hdeps|Hdeps].
  - exists x. split; [done|]. apply Hfront; [done..|].
    destruct (dependencies d x) as [|p deps] eqn:Hd.
    + left. by apply entry_nodes_no_dependencies.
    + right. exists p. apply Forall_cons in Hdeps as [Hp _]. split; [done|].
      apply elem_of_dependencies. rewrite Hd. apply elem_of_cons. by left.
  - apply not_Forall_Exists in Hdeps; [|apply _].
    apply Exists_exists in Hdeps as (p & Hp & Hpc).
    apply elem_of_dependencies in Hp.
    assert (x ∉ vis) as Hfresh.
    { intros Hin. by apply (d_acyclic x), Hreach. }
    apply (IH p (x :: vis)).
    + simpl. lia.
    + by constructor.
    + intros c Hin. apply elem_of_cons in Hin as [->|?]; auto.
    + intros c Hin. apply elem_of_cons in Hin as [->|?].
      * by apply tc_once.
      * eapply tc_l; eauto.
    + destruct Hp as (e & He & <- & _). by apply d_well_formed.
    + done.
Qed.

Lemma ready_node_exists (st : LoopState) (x : string) :
  schedule_inv d st → x ∈ node_ids d → x ∉ completed_nodes st →
  ∃ y, ready d st y ∧ y ∈ execution_queue st.
Proof.
  intros Hinv Hx Hxc.
  apply (ready_node_in_queue st Hinv (S (length (node_ids d))) x []);
    [simpl; lia|constructor| | |done..];
    intros c Hin; by apply elem_of_nil in Hin.
Qed.

(** When the queue is empty every declared node is completed. *)
Lemma empty_queue_all_completed (st : LoopState) :
  schedule_inv d st → execution_queue st = [] →
  ∀ n, n ∈ node_ids d → n ∈ completed_nodes st.
Proof.
  intros Hinv Hempty n Hn.
  destruct (decide (n ∈ completed_nodes st)) as [|Hnc]; [done|].
  destruct (ready_node_exists st n Hinv Hn Hnc) as (y & _ & Hy).
  rewrite Hempty in Hy. by apply elem_of_nil in Hy.
Qed.

End schedule_facts.

(** ** The loop ends on an acyclic definition *)

Section termination.
Variable execs : gmap string Executor.
Variable d : WorkflowDefinition.
Variable top_input : option dict.
Hypothesis d_well_formed : well_formed d.
Hypothesis d_acyclic : acyclic d.

Lemma loop_body_blocked (p : string) (queue : list string) (st : LoopState)
    (w : World) :
  blocked d st p →
  loop_body execs d top_input p queue st w = Next (with_queue (queue ++ [p]) st) w.
Proof.
  intros [Hp Hd]. unfold loop_body.
  rewrite decide_False by done. by rewrite decide_False by done.
Qed.

(** The loop puts a prefix of blocked nodes behind the rest of the queue,
    one node an iteration. *)
Lemma while_loop_rotate (pre rest : list string) (st : LoopState) (w : World)
    (fuel : nat) :
  execution_queue st = pre ++ rest →
  Forall (blocked d st) pre →
  while_loop execs d top_input (length pre + fuel) st w
  = while_loop execs d top_input fuel (with_queue (rest ++ pre) st) w.
Proof.
  revert rest st. induction pre as [|p pre IH]; intros rest st Hq Hb; simpl.
  - rewrite app_nil_r. simpl in Hq. destruct st; simpl in *. by subst.
  - apply Forall_cons in Hb as [Hp Hb]. rewrite Hq. simpl.
    rewrite loop_body_blocked by done.
    rewrite (IH (rest ++ [p])); [|by rewrite <- app_assoc|done].
    by rewrite <- app_assoc.
Qed.

Lemma first_not_blocked (st : LoopState) (l : list string) :
  Exists (λ n, ¬ blocked d st n) l →
  ∃ pre x rest, l = pre ++ x :: rest ∧ Forall (blocked d st) pre
                ∧ ¬ blocked d st x.
Proof.
  induction l as [|h l IH]; intros Hex; [by apply Exists_nil in Hex|].
  destruct (decide (blocked d st h)) as [Hh|Hh].
  - apply Exists_cons in Hex as [?|Hex]; [done|].
    destruct (IH Hex) as (pre & x & rest & -> & Hpre & Hx).
    exists (h :: pre), x, rest. split_and!; [done| |done]. by constructor.
  - exists [], h, l. split_and!; [done|constructor|done].
Qed.

Lemma schedule_inv_with_queue (st : LoopState) (queue : list string) :
  (∀ n, n ∈ queue ↔ n ∈ execution_queue st) →
  schedule_inv d st → schedule_inv d (with_queue queue st).
Proof.
  intros Hsame (Hq & Hc & Hfront & Hnd & Hcalls).
  unfold schedule_inv. simpl. split_and!; try done.
  - intros n Hn. by apply Hq, Hsame.
  - intros n Hn Hnc Hel. by apply Hsame, Hfront.
Qed.

Lemma pending_completed (st : LoopState) (cur : string) (C : gset string) :
  cur ∈ node_ids d → cur ∉ completed_nodes st →
  (length (filter (λ n, n ∉ {[ cur ]} ∪ completed_nodes st) (node_ids d))
   < length (pending d st))%nat.
Proof.
  unfold pending. generalize (node_ids d) as l.
  assert (∀ l : list string,
            (length (filter (λ n, n ∉ {[ cur ]} ∪ completed_nodes st) l)
             ≤ length (filter (λ n, n ∉ completed_nodes st) l))%nat) as Hle.
  { induction l as [|h l IH]; [done|]. rewrite !filter_cons.
    destruct (decide (h ∉ {[ cur ]} ∪ completed_nodes st)) as [Hh|Hh].
    - rewrite decide_True; [simpl; lia|]. set_solver.
    - destruct (decide (h ∉ completed_nodes st)); simpl; lia. }
  induction l as [|h l IH]; intros Hin Hc; [by apply elem_of_nil in Hin|].
  rewrite !filter_cons. apply elem_of_cons in Hin as [<-|Hin].
  - rewrite decide_False by set_solver. rewrite decide_True by done.
    simpl. specialize (Hle l). lia.
  - specialize (IH Hin Hc).
    destruct (decide (h ∉ {[ cur ]} ∪ completed_nodes st)) as [Hh|Hh].
    + rewrite decide_True by set_solver. simpl. lia.
    + destruct (decide (h ∉ completed_nodes st)); simpl; lia.
Qed.

(** Termination: from a state that satisfies the invariant the loop ends,
    by an empty queue or by an exception, within some number of
    iterations. *)
Lemma while_loop_terminates_from (m : nat) :
  ∀ (st : LoopState) (w : World),
    schedule_inv d st → (loop_measure d st ≤ m)%nat →
    ∃ fuel r, while_loop execs d top_input fuel st w = Some r.
Proof.
  induction m as [m IH] using lt_wf_ind. intros st w Hinv Hm.
  destruct (execution_queue st) as [|h t] eqn:Hqueue.
  { exists 1%nat, (Finished, st, w). simpl. by rewrite Hqueue. }
  assert (Exists (λ n, ¬ blocked d st n) (execution_queue st)) as Hex.
  { destruct (decide (h ∈ completed_nodes st)) as [Hh|Hh].
    - rewrite Hqueue. apply Exists_cons_hd. by intros [? _].
    - destruct Hinv as (Hq & Hrest).
      assert (h ∈ node_ids d) as Hdecl.
      { apply Hq. rewrite Hqueue. apply elem_of_cons. by left. }
      destruct (ready_node_exists d d_well_formed d_acyclic st h
                  (conj Hq Hrest) Hdecl Hh) as (y & (_ & _ & Hy) & Hyq).
      apply Exists_exists. exists y. split; [done|]. by intros [_ ?]. }
  destruct (first_not_blocked st _ Hex) as (pre & x & rest & Hsplit & Hpre & Hx).
  set (st_r := with_queue ((x :: rest) ++ pre) st).
  assert (schedule_inv d st_r) as Hinv_r.
  { apply schedule_inv_with_queue; [|done]. intros n. rewrite Hsplit.
    rewrite !elem_of_app. tauto. }
  assert (loop_measure d st_r = loop_measure d st) as Hm_r.
  { unfold loop_measure, st_r, pending. simpl. rewrite Hsplit.
    rewrite !length_app. simpl. rewrite ?length_app. simpl. lia. }
  assert (∀ fuel r,
            while_loop execs d top_input fuel st_r w = Some r →
            ∃ fuel' r', while_loop execs d top_input fuel' st w = Some r')
    as Hback.
  { intros fuel r Hr. exists (length pre + fuel)%nat, r.
    by rewrite (while_loop_rotate pre (x :: rest)). }
  destruct (loop_body execs d top_input x (rest ++ pre) st_r w)
    as [st' w'|exit st' w'] eqn:Hb.
  2:{ apply (Hback 1%nat (exit, st', w')). simpl. by rewrite Hb. }
  assert (schedule_inv d st') as Hinv'.
  { by apply (schedule_inv_Next execs d top_input d_well_formed
                x (rest ++ pre) st_r st' w w'). }
  assert (loop_measure d st' < loop_measure d st_r)%nat as Hdec.
  { apply loop_body_Next in Hb
      as [(_ & _ & ->)|[(Hxc & _ & Hxd & _)|(Hxc & _ & node & top & ex & out
                                              & _ & _ & _ & _ & ->)]].
    - unfold loop_measure, pending, st_r. simpl. rewrite !length_app. simpl. lia.
    - exfalso. by apply Hx.
    - unfold loop_measure. simpl.
      assert (x ∈ node_ids d) as Hdecl.
      { destruct Hinv_r as (Hq & _). apply Hq. simpl. apply elem_of_cons. by left. }
      pose proof (pending_completed st_r x ∅ Hdecl Hxc) as Hlt.
      unfold pending at 1. simpl.
      rewrite length_app, length_fmap, edges_by_from_lookup.
      pose proof (length_filter (λ e, from_node e = x) (edges d)) as Hout.
      unfold pending in *. simpl in *.
      rewrite !length_app in *. simpl in *. nia. }
  destruct (IH (loop_measure d st') ltac:(lia) st' w' Hinv' ltac:(lia))
    as (fuel & r & Hr).
  apply (Hback (S fuel) r). simpl. by rewrite Hb.
Qed.

Lemma while_loop_terminates (w : World) :
  ∃ fuel exit st w',
    while_loop execs d top_input fuel (loop_init d) w = Some (exit, st, w').
Proof.
  destruct (while_loop_terminates_from _ (loop_init d) w
              (schedule_inv_init d) (le_n _)) as (fuel & [[exit st] w'] & Hr).
  by exists fuel, exit, st, w'.
Qed.

(** A loop that ends by an empty queue has called the executor of every
    declared node exactly once, and has completed every declared node. *)
Lemma while_loop_finished (fuel : nat) (st : LoopState) (w w' : World) :
  while_loop execs d top_input fuel (loop_init d) w = Some (Finished, st, w') →
  (dispatched st).*1 ≡ₚ node_ids d
  ∧ completed_nodes st = list_to_set (node_ids d)
  ∧ size (completed_nodes st) = length (node_ids d)
  ∧ skipped_nodes d st = [].
Proof.
  intros Hrun.
  pose proof (while_loop_invariant execs d top_input (schedule_inv d) (λ _ _, True))
    as Hgen.
  specialize (Hgen (λ cur queue st w st' w' HP Hq Hb,
                      schedule_inv_Next execs d top_input d_well_formed
                        cur queue st st' w w' HP Hq Hb)).
  specialize (Hgen (λ _ _ _ _ _ _ _ _ _ _, I)).
  destruct (Hgen fuel _ w Finished st w' (schedule_inv_init d) Hrun)
    as [Hinv Hempty].
  pose proof (empty_queue_all_completed d d_well_formed d_acyclic st Hinv Hempty)
    as Hall.
  destruct Hinv as (_ & Hc & _ & Hnd & Hcalls).
  destruct d_well_formed as [Hids _].
  assert (completed_nodes st = list_to_set (node_ids d)) as Heq.
  { apply set_eq. intros n. rewrite elem_of_list_to_set. split; auto. }
  split_and!.
  - apply NoDup_Permutation; [done..|]. intros n. rewrite Hcalls. split; auto.
  - done.
  - rewrite Heq. by apply size_list_to_set.
  - unfold skipped_nodes.
    destruct (filter _ (node_ids d)) as [|n l] eqn:Hf; [done|].
    assert (n ∈ filter (λ n, n ∉ completed_nodes st) (node_ids d)) as Hn.
    { rewrite Hf. apply elem_of_cons. by left. }
    apply list_elem_of_filter in Hn as [Hnc Hn]. by destruct Hnc; apply Hall.
Qed.

End termination.

(** ** The built-in executors *)

Section builtin_facts.
Context {platform : Platform}.

Lemma TriggerExecutor_ok (node : WorkflowNode) (input_data : dict) (w : World) :
  ∃ out, TriggerExecutor node input_data w = (Ok out, tick w)
         ∧ out !! "data" = None.
Proof.
  unfold TriggerExecutor.
  destruct (py_eq_str _ "schedule"); [|destruct (py_eq_str _ "webhook")];
    eexists; (split; [reflexivity|]); by vm_compute.
Qed.

Lemma ConnectorExecutor_ok (node : WorkflowNode) (input_data : dict) (w : World) :
  ∃ out, ConnectorExecutor node input_data w = (Ok out, tick w)
         ∧ out !! "data" = None.
Proof. eexists. split; [reflexivity|]. by vm_compute. Qed.

Lemma ActionExecutor_ok (node : WorkflowNode) (input_data : dict) (w : World) :
  ∃ out, ActionExecutor node input_data w = (Ok out, tick w)
         ∧ out !! "data" = None.
Proof.
  unfold ActionExecutor. destruct (py_eq_str _ "email");
    eexists; (split; [reflexivity|]); by vm_compute.
Qed.

(** The condition executor does not look at its expression: its [result]
    is [True] for every node and input. *)
Lemma ConditionExecutor_ok (node : WorkflowNode) (input_data : dict) (w : World) :
  ∃ out, ConditionExecutor node input_data w = (Ok out, tick w)
         ∧ out !! "data" = None
         ∧ out !! "result" = Some (VBool true).
Proof. eexists. split; [reflexivity|]. split; by vm_compute. Qed.

Lemma AgentExecutor_ok (node : WorkflowNode) (input_data : dict) (w : World) :
  data_sized input_data →
  ∃ out, AgentExecutor node input_data w = (Ok out, tick w)
         ∧ out !! "data" = None.
Proof.
  unfold data_sized, AgentExecutor.
  destruct (input_data !! "data") as [[]|]; simpl; try done; intros _;
    eexists; (split; [reflexivity|]); by vm_compute.
Qed.

(** The agent executor raises a [TypeError] when ["data"] has no length. *)
Lemma AgentExecutor_raises (node : WorkflowNode) (input_data : dict) (w : World) :
  ¬ data_sized input_data →
  ∃ msg, AgentExecutor node input_data w = (Raise (PyError "TypeError" msg), w).
Proof.
  unfold data_sized, AgentExecutor.
  destruct (input_data !! "data") as [[]|]; simpl; try done; intros _;
    by eexists.
Qed.

Lemma builtin_executors_lookup (t : string) :
  t ∈ known_types →
  ∃ ex : Executor, builtin_executors !! t = Some ex
        ∧ ∀ node input_data w,
            data_sized input_data →
            ∃ out, ex node input_data w = (Ok out, tick w)
                   ∧ out !! "data" = None.
Proof.
  unfold known_types. rewrite !elem_of_cons, elem_of_nil.
  intros [->|[->|[->|[->|[->|[]]]]]]; eexists; (split; [reflexivity|]);
    intros node input_data w Hd.
  - apply TriggerExecutor_ok.
  - apply ConnectorExecutor_ok.
  - by apply AgentExecutor_ok.
  - apply ActionExecutor_ok.
  - destruct (ConditionExecutor_ok node input_data w) as (out & ? & ? & _).
    by exists out.
Qed.

End builtin_facts.

(** ** Runs of the built-in executors *)

Section builtin_runs.
Context {platform : Platform}.
Variable d : WorkflowDefinition.
Variable top : dict.
Hypothesis types_known : ∀ node, node ∈ nodes d → node_type node ∈ known_types.
Hypothesis edges_declared :
  ∀ e, e ∈ edges d → from_node e ∈ node_ids d ∧ to_node e ∈ node_ids d.
Hypothesis top_data_sized : data_sized top.

Lemma prepare_input_data (deps : list string) (outs : gmap string dict) (acc : dict) :
  (∀ n o, outs !! n = Some o → o !! "data" = None) →
  prepare_input acc deps outs !! "data" = acc !! "data".
Proof.
  intros Hno. unfold prepare_input. revert acc.
  induction deps as [|p deps IH]; intros acc; simpl; [done|].
  rewrite IH. destruct (outs !! p) as [o|] eqn:Hp; [|done].
  rewrite lookup_union_r; [done|]. by eapply Hno.
Qed.

Lemma builtin_inv_init : builtin_inv d (loop_init d).
Proof.
  split; simpl.
  - intros n Hn. by apply elem_of_entry_nodes in Hn as [? _].
  - intros n o Hn. by rewrite lookup_empty in Hn.
Qed.

Lemma builtin_inv_Next (cur : string) (queue : list string)
    (st st' : LoopState) (w w' : World) :
  builtin_inv d st → execution_queue st = cur :: queue →
  loop_body builtin_executors d (Some top) cur queue st w = Next st' w' →
  builtin_inv d st'.
Proof.
  intros [Hq Hno] Hqueue Hb.
  assert (∀ n, n ∈ queue → n ∈ node_ids d) as Hq'.
  { intros n Hn. apply Hq. rewrite Hqueue. apply elem_of_cons. by right. }
  apply loop_body_Next in Hb
    as [(_ & _ & ->)|[(_ & _ & _ & ->)|(_ & _ & node & top' & ex & out
                                         & Hnode & [= <-] & Hex & Hrun & ->)]];
    split; simpl; try done.
  - intros n Hn. apply elem_of_app in Hn as [Hn|Hn]; [by apply Hq'|].
    apply list_elem_of_singleton in Hn as ->. apply Hq. rewrite Hqueue.
    apply elem_of_cons. by left.
  - intros n Hn. apply elem_of_app in Hn as [Hn|Hn]; [by apply Hq'|].
    apply elem_of_successors in Hn as (e & He & _ & <-).
    by apply edges_declared.
  - intros n o Hn. destruct (decide (cur = n)) as [->|Hne].
    + rewrite lookup_insert_eq in Hn. injection Hn as ->.
      apply nodes_by_id_Some in Hnode as [Hnode _].
      destruct (builtin_executors_lookup _ (types_known _ Hnode))
        as (ex' & Hex' & Hok).
      rewrite Hex in Hex'. injection Hex' as <-.
      destruct (Hok node (prepare_input top (dependencies d n) (node_outputs st)) w)
        as (out' & Hrun' & Hdata).
      { unfold data_sized. by rewrite prepare_input_data. }
      rewrite Hrun in Hrun'. by injection Hrun' as -> _.
    + rewrite lookup_insert_ne in Hn by done. by eapply Hno.
Qed.

Lemma builtin_inv_no_Stop (cur : string) (queue : list string)
    (st st' : LoopState) (exit : LoopExit) (w w' : World) :
  builtin_inv d st → execution_queue st = cur :: queue →
  loop_body builtin_executors d (Some top) cur queue st w = Stop exit st' w' →
  False.
Proof.
  intros [Hq Hno] Hqueue. unfold loop_body.
  destruct (decide (cur ∈ _)); [done|].
  destruct (decide (Forall _ _)); [|done].
  assert (cur ∈ node_ids d) as Hdecl.
  { apply Hq. rewrite Hqueue. apply elem_of_cons. by left. }
  destruct (nodes_by_id_declared d cur Hdecl) as [node Hnode]. rewrite Hnode.
  apply nodes_by_id_Some in Hnode as [Hnode _].
  destruct (builtin_executors_lookup _ (types_known _ Hnode)) as (ex & -> & Hok).
  destruct (Hok node (prepare_input top (dependencies d cur) (node_outputs st)) w)
    as (out & -> & _); [|done].
  unfold data_sized. by rewrite prepare_input_data.
Qed.

(** With known node types, declared edge ends and a top-level input whose
    ["data"] is absent or has a length, the loop is never left by an
    exception. *)
Lemma builtin_loop_never_raises (fuel : nat) (exit : LoopExit)
    (st : LoopState) (w w' : World) :
  while_loop builtin_executors d (Some top) fuel (loop_init d) w
    = Some (exit, st, w') →
  exit = Finished.
Proof.
  intros Hrun.
  pose proof (while_loop_invariant builtin_executors d (Some top)
                (builtin_inv d) (λ _ _, False)) as Hgen.
  specialize (Hgen (λ cur queue st w st' w' HP Hq Hb,
                      builtin_inv_Next cur queue st st' w w' HP Hq Hb)).
  specialize (Hgen (λ cur queue st w e st' w' HP Hq Hb,
                      builtin_inv_no_Stop cur queue st st' _ w w' HP Hq Hb)).
  specialize (Hgen fuel _ w exit st w' builtin_inv_init Hrun).
  by destruct exit.
Qed.

End builtin_runs.

(** ** Runs on a top-level input whose data has no length *)

Section unsized_runs.
Context {platform : Platform}.
Variable d : WorkflowDefinition.
Variable top : dict.
Hypothesis types_known : ∀ node, node ∈ nodes d → node_type node ∈ known_types.
Hypothesis edges_declared :
  ∀ e, e ∈ edges d → from_node e ∈ node_ids d ∧ to_node e ∈ node_ids d.
Hypothesis top_unsized : ¬ data_sized top.

(** The executors of the other four types return for every input. *)
Lemma builtin_executors_other (t : string) :
  t ∈ known_types → t ≠ "agent" →
  ∃ ex : Executor, builtin_executors !! t = Some ex
        ∧ ∀ node input_data w,
            ∃ out, ex node input_data w = (Ok out, tick w)
                   ∧ out !! "data" = None.
Proof.
  unfold known_types. rewrite !elem_of_cons, elem_of_nil.
  intros [->|[->|[->|[->|[->|[]]]]]] Hne; try done;
    eexists; (split; [reflexivity|]); intros node input_data w.
  - apply TriggerExecutor_ok.
  - apply ConnectorExecutor_ok.
  - apply ActionExecutor_ok.
  - destruct (ConditionExecutor_ok node input_data w) as (out & ? & ? & _).
    by exists out.
Qed.

Lemma py_len_unsized :
  ∃ msg, py_len (default (VList []) (top !! "data"))
         = Raise (PyError "TypeError" msg).
Proof.
  unfold data_sized in top_unsized.
  destruct (top !! "data") as [[]|]; simpl in *; try done; by eexists.
Qed.

Lemma AgentExecutor_unsized (node : WorkflowNode) (input_data : dict)
    (w : World) :
  input_data !! "data" = top !! "data" →
  ∃ msg, py_len (default (VList []) (top !! "data"))
         = Raise (PyError "TypeError" msg)
         ∧ AgentExecutor node input_data w = (Raise (PyError "TypeError" msg), w).
Proof.
  intros Hdata. destruct py_len_unsized as [msg Hmsg]. exists msg.
  split; [done|]. unfold AgentExecutor. by rewrite Hdata, Hmsg.
Qed.

Lemma unsized_inv_init : unsized_inv d (loop_init d).
Proof.
  split; [apply builtin_inv_init|]. intros c Hc. simpl in Hc.
  by apply elem_of_nil in Hc.
Qed.

Lemma unsized_inv_Next (cur : string) (queue : list string)
    (st st' : LoopState) (w w' : World) :
  unsized_inv d st → execution_queue st = cur :: queue →
  loop_body builtin_executors d (Some top) cur queue st w = Next st' w' →
  unsized_inv d st'.
Proof.
  intros [[Hq Hno] Hcalls] Hqueue Hb.
  assert (∀ n, n ∈ queue → n ∈ node_ids d) as Hq'.
  { intros n Hn. apply Hq. rewrite Hqueue. apply elem_of_cons. by right. }
  apply loop_body_Next in Hb
    as [(_ & _ & ->)|[(_ & _ & _ & ->)|(_ & _ & node & top' & ex & out
                                         & Hnode & [= <-] & Hex & Hrun & ->)]].
  - by split; [split|].
  - split; [split|]; simpl; [|done..].
    intros n Hn. apply elem_of_app in Hn as [Hn|Hn]; [by apply Hq'|].
    apply list_elem_of_singleton in Hn as ->. apply Hq. rewrite Hqueue.
    apply elem_of_cons. by left.
  - pose proof Hnode as Hlook.
    apply nodes_by_id_Some in Hnode as [Hnode _].
    assert (prepare_input top (dependencies d cur) (node_outputs st) !! "data"
            = top !! "data") as Hdata by by apply prepare_input_data.
    assert (node_type node ≠ "agent") as Hne.
    { intros Hagent. rewrite Hagent in Hex.
      assert (builtin_executors !! "agent" = Some AgentExecutor) as Hlookup
        by reflexivity.
      rewrite Hlookup in Hex. injection Hex as <-.
      destruct (AgentExecutor_unsized node _ w Hdata) as (msg & _ & Hraise).
      rewrite Hraise in Hrun. discriminate. }
    destruct (builtin_executors_other _ (types_known _ Hnode) Hne)
      as (ex' & Hex' & Hok).
    rewrite Hex in Hex'. injection Hex' as <-.
    destruct (Hok node (prepare_input top (dependencies d cur) (node_outputs st)) w)
      as (out' & Hrun' & Hout).
    rewrite Hrun in Hrun'. injection Hrun' as -> _.
    split; [split|]; simpl.
    + intros n Hn. apply elem_of_app in Hn as [Hn|Hn]; [by apply Hq'|].
      apply elem_of_successors in Hn as (e & He & _ & <-).
      by apply edges_declared.
    + intros n o Hn. destruct (decide (cur = n)) as [->|Hne'].
      * rewrite lookup_insert_eq in Hn. by injection Hn as <-.
      * rewrite lookup_insert_ne in Hn by done. by eapply Hno.
    + intros c. rewrite fmap_app, elem_of_app. simpl.
      rewrite list_elem_of_singleton. intros [Hc| ->]; [by apply Hcalls|].
      intros (node' & Hnode' & Htype). rewrite Hlook in Hnode'.
      injection Hnode' as <-. done.
Qed.

Lemma unsized_inv_Stop (cur : string) (queue : list string)
    (st st' : LoopState) (e : exn) (w w' : World) :
  unsized_inv d st → execution_queue st = cur :: queue →
  loop_body builtin_executors d (Some top) cur queue st w = Stop (Raised e) st' w' →
  type_error_exit d top e st'.
Proof.
  intros [[Hq Hno] Hcalls] Hqueue. unfold loop_body.
  destruct (decide (cur ∈ _)); [done|].
  destruct (decide (Forall _ _)); [|done].
  assert (cur ∈ node_ids d) as Hdecl.
  { apply Hq. rewrite Hqueue. apply elem_of_cons. by left. }
  destruct (nodes_by_id_declared d cur Hdecl) as [node Hlook]. rewrite Hlook.
  pose proof Hlook as Hnode. apply nodes_by_id_Some in Hnode as [Hnode _].
  assert (prepare_input top (dependencies d cur) (node_outputs st) !! "data"
          = top !! "data") as Hdata by by apply prepare_input_data.
  destruct (decide (node_type node = "agent")) as [Hagent|Hne].
  - rewrite Hagent.
    assert (builtin_executors !! "agent" = Some AgentExecutor) as Hlookup
      by reflexivity.
    rewrite Hlookup.
    destruct (AgentExecutor_unsized node _ w Hdata) as (msg & Hmsg & Hraise).
    rewrite Hraise. intros [= <- <- <-]. split; [by exists msg|].
    simpl. eexists _, _, _. split_and!; [done| |done]. by exists node.
  - destruct (builtin_executors_other _ (types_known _ Hnode) Hne)
      as (ex & -> & Hok).
    by destruct (Hok node (prepare_input top (dependencies d cur)
                             (node_outputs st)) w) as (out & -> & _).
Qed.

(** With known node types and declared edge ends, a run on a top-level
    input whose ["data"] has no length ends by an empty queue only when no
    call was made for an agent node, and otherwise by the [TypeError] of
    the first such call. *)
Lemma unsized_loop (fuel : nat) (exit : LoopExit) (st : LoopState)
    (w w' : World) :
  while_loop builtin_executors d (Some top) fuel (loop_init d) w
    = Some (exit, st, w') →
  match exit with
  | Finished => ∀ c, c ∈ (dispatched st).*1 → ¬ agent_call d c
  | Raised e => type_error_exit d top e st
  end.
Proof.
  intros Hrun.
  pose proof (while_loop_invariant builtin_executors d (Some top)
                (unsized_inv d) (type_error_exit d top)) as Hgen.
  specialize (Hgen (λ cur queue st w st' w' HP Hq Hb,
                      unsized_inv_Next cur queue st st' w w' HP Hq Hb)).
  specialize (Hgen (λ cur queue st w e st' w' HP Hq Hb,
                      unsized_inv_Stop cur queue st st' e w w' HP Hq Hb)).
  specialize (Hgen fuel _ w exit st w' unsized_inv_init Hrun).
  destruct exit; [by destruct Hgen as [[_ ?] _]|done].
Qed.

End unsized_runs.

(** ** Edge conditions *)

Section condition_facts.
Variable execs : gmap string Executor.
Variable d : WorkflowDefinition.
Variable top_input : option dict.

Lemma dependencies_without_conditions (n : string) :
  dependencies (without_conditions d) n = dependencies d n.
Proof.
  unfold dependencies, without_conditions. simpl.
  induction (edges d) as [|e l IH]; [done|].
  rewrite fmap_cons, !filter_cons. cbn [to_node from_node].
  destruct (decide (to_node e = n)); csimpl; by rewrite IH.
Qed.

Lemma successors_without_conditions (n : string) :
  to_node <$> default [] (edges_by_from (without_conditions d) !! n)
  = to_node <$> default [] (edges_by_from d !! n).
Proof.
  rewrite !edges_by_from_lookup. unfold without_conditions. simpl.
  induction (edges d) as [|e l IH]; [done|].
  rewrite fmap_cons, !filter_cons. cbn [to_node from_node].
  destruct (decide (from_node e = n)); csimpl; by rewrite IH.
Qed.

Lemma entry_nodes_without_conditions :
  entry_nodes (without_conditions d) = entry_nodes d.
Proof.
  unfold entry_nodes, incoming_edges, without_conditions. simpl.
  by rewrite <- list_fmap_compose.
Qed.

Lemma loop_body_without_conditions (cur : string) (queue : list string)
    (st : LoopState) (w : World) :
  loop_body execs (without_conditions d) top_input cur queue st w
  = loop_body execs d top_input cur queue st w.
Proof.
  unfold loop_body.
  by rewrite dependencies_without_conditions, successors_without_conditions.
Qed.

(** The loop never reads the condition of an edge: a run of a definition
    is the run of the definition without its conditions. *)
Lemma while_loop_without_conditions (fuel : nat) (st : LoopState) (w : World) :
  while_loop execs (without_conditions d) top_input fuel st w
  = while_loop execs d top_input fuel st w.
Proof.
  revert st w. induction fuel as [|fuel IH]; intros st w; simpl; [done|].
  destruct (execution_queue st) as [|cur queue]; [done|].
  rewrite loop_body_without_conditions.
  by destruct (loop_body execs d top_input cur queue st w).
Qed.

Lemma loop_init_without_conditions :
  loop_init (without_conditions d) = loop_init d.
Proof. unfold loop_init. by rewrite entry_nodes_without_conditions. Qed.

End condition_facts.

(** ** Stepping through a run *)

Section stepping.
Variable execs : gmap string Executor.
Variable d : WorkflowDefinition.
Variable top : dict.

Lemma while_loop_S (fuel : nat) (st : LoopState) (w : World) :
  while_loop execs d (Some top) (S fuel) st w
  = match execution_queue st with
    | [] => Some (Finished, st, w)
    | cur :: queue =>
      match loop_body execs d (Some top) cur queue st w with
      | Next st' w' => while_loop execs d (Some top) fuel st' w'
      | Stop exit st' w' => Some (exit, st', w')
      end
    end.
Proof. reflexivity. Qed.

Lemma while_loop_executes (fuel : nat) (st : LoopState) (w w' : World)
    (cur : string) (queue : list string) (node : WorkflowNode)
    (ex : Executor) (out : dict) :
  execution_queue st = cur :: queue →
  cur ∉ completed_nodes st →
  Forall (λ dep, dep ∈ completed_nodes st) (dependencies d cur) →
  nodes_by_id d !! cur = Some node →
  execs !! node_type node = Some ex →
  ex node (prepare_input top (dependencies d cur) (node_outputs st)) w = (Ok out, w') →
  while_loop execs d (Some top) (S fuel) st w
  = while_loop execs d (Some top) fuel
      {| execution_queue :=
           queue ++ (to_node <$> default [] (edges_by_from d !! cur));
         completed_nodes := {[ cur ]} ∪ completed_nodes st;
         node_outputs := <[cur := out]> (node_outputs st);
         current_node := Some cur;
         dispatched :=
           dispatched st ++
             [(cur, prepare_input top (dependencies d cur) (node_outputs st))] |} w'.
Proof.
  intros Hq Hc Hd Hnode Hex Hrun. rewrite while_loop_S, Hq. unfold loop_body.
  rewrite decide_False by done. rewrite decide_True by done.
  by rewrite Hnode, Hex, Hrun.
Qed.

Lemma while_loop_raises (fuel : nat) (st : LoopState) (w w' : World)
    (cur : string) (queue : list string) (node : WorkflowNode)
    (ex : Executor) (e : exn) :
  execution_queue st = cur :: queue →
  cur ∉ completed_nodes st →
  Forall (λ dep, dep ∈ completed_nodes st) (dependencies d cur) →
  nodes_by_id d !! cur = Some node →
  execs !! node_type node = Some ex →
  ex node (prepare_input top (dependencies d cur) (node_outputs st)) w = (Raise e, w') →
  while_loop execs d (Some top) (S fuel) st w
  = Some (Raised e,
          {| execution_queue := queue;
             completed_nodes := completed_nodes st;
             node_outputs := node_outputs st;
             current_node := Some cur;
             dispatched :=
               dispatched st ++
                 [(cur, prepare_input top (dependencies d cur) (node_outputs st))] |},
          w').
Proof.
  intros Hq Hc Hd Hnode Hex Hrun. rewrite while_loop_S, Hq. unfold loop_body.
  rewrite decide_False by done. rewrite decide_True by done.
  by rewrite Hnode, Hex, Hrun.
Qed.

End stepping.

(** An acyclicity criterion: positions that every edge increases. *)
Lemma ranked_acyclic (d : WorkflowDefinition) (rank : string → nat) :
  ranked d rank → acyclic d.
Proof.
  intros Hr.
  assert (∀ a b, tc (edge_rel d) a b → (rank a < rank b)%nat) as Hlt.
  { intros a b Hab. induction Hab as [a b (e & He & <- & <-)|a b c (e & He & <- & <-) _ IH].
    - by apply Hr.
    - specialize (Hr e He). lia. }
  intros n Hn. specialize (Hlt n n Hn). lia.
Qed.

Section chain_facts.
Variables c_trigger c_connector c_agent c_action : dict.

Abbreviation chain := (chain_definition c_trigger c_connector c_agent c_action).

Lemma chain_well_formed : well_formed chain.
Proof.
  split.
  - apply (bool_decide_unpack _). by vm_compute.
  - intros e He. unfold chain_definition in He. simpl in He.
    rewrite !elem_of_cons, elem_of_nil in He.
    destruct He as [->|[->|[->|[]]]]; split; apply (bool_decide_unpack _); by vm_compute.
Qed.

Lemma chain_acyclic : acyclic chain.
Proof.
  apply (ranked_acyclic _ chain_rank). intros e He.
  unfold chain_definition in He. simpl in He.
  rewrite !elem_of_cons, elem_of_nil in He.
  destruct He as [->|[->|[->|[]]]]; vm_compute; lia.
Qed.

Lemma chain_types_known (node : WorkflowNode) :
  node ∈ nodes chain → node_type node ∈ known_types.
Proof.
  unfold chain_definition. simpl. rewrite !elem_of_cons, elem_of_nil.
  intros [->|[->|[->|[->|[]]]]]; apply (bool_decide_unpack _); by vm_compute.
Qed.

End chain_facts.

(** ** The background task *)

Section task_facts.
Context {platform : Platform}.

(** The two entries of the output of a successful run. *)
Lemma success_output_node_outputs (st : LoopState) :
  success_output st !! "node_outputs"
  = Some (VDict (VDict <$> node_outputs st)).
Proof. reflexivity. Qed.

Lemma success_output_completed_nodes (st : LoopState) :
  success_output st !! "completed_nodes"
  = Some (VList (VStr <$> elements (completed_nodes st))).
Proof. reflexivity. Qed.

Lemma execute_task_of_loop (fuel : nat) (eng : WorkflowEngine)
    (execution_id : string) (es : ExecutionState) (w w1 : World)
    (exit : LoopExit) (st : LoopState) :
  running_executions eng !! execution_id = Some es →
  while_loop (executors eng) (definition (es_workflow es))
    (input (es_execution es)) fuel (loop_init (definition (es_workflow es))) w
    = Some (exit, st, w1) →
  ∃ eng',
    _execute_workflow_async fuel eng execution_id w
      = Some (eng', dispatched st, tick w1)
    ∧ executors eng' = executors eng
    ∧ record_of eng' execution_id
      = Some (match exit with
              | Finished => finished_record (es_execution es) st w1
              | Raised err => failed_record (es_execution es) err w1
              end)
    ∧ es_node_outputs <$> running_executions eng' !! execution_id
      = Some (es_node_outputs es)
    ∧ ∀ other, other ≠ execution_id →
        running_executions eng' !! other = running_executions eng !! other.
Proof.
  intros Hes Hrun. unfold _execute_workflow_async, record_of.
  rewrite Hes, Hrun.
  destruct exit as [|err]; eexists; (split; [reflexivity|]); simpl;
    rewrite lookup_insert_eq; split_and!; try done;
    intros other Hne; by rewrite lookup_insert_ne.
Qed.

Lemma execute_task_inv (fuel : nat) (eng eng' : WorkflowEngine)
    (execution_id : string) (es : ExecutionState) (w w' : World)
    (calls : list (string * dict)) :
  running_executions eng !! execution_id = Some es →
  _execute_workflow_async fuel eng execution_id w = Some (eng', calls, w') →
  ∃ exit st w1,
    while_loop (executors eng) (definition (es_workflow es))
      (input (es_execution es)) fuel (loop_init (definition (es_workflow es))) w
      = Some (exit, st, w1)
    ∧ calls = dispatched st ∧ w' = tick w1
    ∧ record_of eng' execution_id
      = Some (match exit with
              | Finished => finished_record (es_execution es) st w1
              | Raised err => failed_record (es_execution es) err w1
              end).
Proof.
  intros Hes Htask.
  destruct (while_loop (executors eng) (definition (es_workflow es))
              (input (es_execution es)) fuel
              (loop_init (definition (es_workflow es))) w)
    as [[[exit st] w1]|] eqn:Hrun.
  - destruct (execute_task_of_loop _ _ _ _ _ _ _ _ Hes Hrun)
      as (eng1 & Htask1 & _ & Hrec & _).
    rewrite Htask in Htask1. injection Htask1 as -> -> ->.
    by exists exit, st, w1.
  - unfold _execute_workflow_async in Htask. by rewrite Hes, Hrun in Htask.
Qed.

(** C8 (as the code has it): for a record whose definition has unique
    node identifiers, edges that join declared nodes and no cycle, the
    task ends (the loop ends within some number of iterations); if it ends
    in SUCCESS, the executor of every declared node was called exactly
    once, and the [completed_nodes] entry of the output of the record
    lists every declared node once: as many as the declared nodes less the
    skipped ones, of which there are none. *)
Theorem acyclic_run_executes_each_node_once (eng : WorkflowEngine)
    (execution_id : string) (es : ExecutionState) (w : World) :
  running_executions eng !! execution_id = Some es →
  well_formed (definition (es_workflow es)) →
  acyclic (definition (es_workflow es)) →
  (∃ fuel eng' calls w',
     _execute_workflow_async fuel eng execution_id w = Some (eng', calls, w'))
  ∧ ∀ fuel eng' calls w',
      _execute_workflow_async fuel eng execution_id w = Some (eng', calls, w') →
      status_of eng' execution_id = Some SUCCESS →
      calls.*1 ≡ₚ node_ids (definition (es_workflow es))
      ∧ ∃ o names,
          output <$> record_of eng' execution_id = Some (Some o)
          ∧ o !! "completed_nodes" = Some (VList (VStr <$> names))
          ∧ names ≡ₚ node_ids (definition (es_workflow es))
          ∧ length names
            = (length (nodes (definition (es_workflow es)))
               - length (filter (λ n, n ∉ names)
                           (node_ids (definition (es_workflow es)))))%nat
          ∧ filter (λ n, n ∉ names) (node_ids (definition (es_workflow es)))
            = [].
Proof.
  intros Hes Hwf Hacyc. split.
  - destruct (while_loop_terminates (executors eng) _ (input (es_execution es))
                Hwf Hacyc w) as (fuel & exit & st & w1 & Hrun).
    destruct (execute_task_of_loop _ _ _ _ _ _ _ _ Hes Hrun) as (eng' & Ht & _).
    eauto.
  - intros fuel eng' calls w' Htask Hstatus.
    destruct (execute_task_inv _ _ _ _ _ _ _ _ Hes Htask)
      as (exit & st & w1 & Hrun & -> & -> & Hrec).
    unfold status_of, record_of in *.
    destruct (running_executions eng' !! execution_id) as [es'|]; [|done].
    simpl in *. injection Hrec as Hrec. injection Hstatus as Hstatus.
    rewrite Hrec in Hstatus. destruct exit as [|err]; [|done].
    destruct (while_loop_finished _ _ _ Hwf Hacyc _ _ _ _ Hrun)
      as (Hperm & Hcomp & _ & _).
    split; [done|].
    assert (elements (completed_nodes st)
            ≡ₚ node_ids (definition (es_workflow es))) as Hnames.
    { rewrite Hcomp. apply elements_list_to_set, Hwf. }
    assert (filter (λ n, n ∉ elements (completed_nodes st))
              (node_ids (definition (es_workflow es))) = []) as Hskipped.
    { destruct (filter _ _) as [|n l] eqn:Hf; [done|]. exfalso.
      assert (n ∈ filter (λ n, n ∉ elements (completed_nodes st))
                    (node_ids (definition (es_workflow es)))) as Hin
        by (rewrite Hf; left).
      apply list_elem_of_filter in Hin as [Hno Hin]. apply Hno.
      by rewrite Hnames. }
    exists (success_output st), (elements (completed_nodes st)).
    rewrite Hrec. split_and!; [done| |done| |done].
    + apply success_output_completed_nodes.
    + rewrite Hskipped, Hnames. unfold node_ids. rewrite length_fmap.
      simpl. lia.
Qed.

(** C10 (as the code has it): on an engine with the built-in executors,
    for a definition whose node types are known and whose edges join
    declared nodes, a task that ends leaves the status SUCCESS when the
    ["data"] entry of the top-level input is absent or is a string, a list
    or a dictionary.  When that entry has no length, the task leaves
    SUCCESS only if no call was made for an agent node; otherwise its last
    call is the first one made for an agent node, whose executor raises the
    [TypeError] of [len], and the task leaves the status FAILED with the
    message of that error. *)
Theorem builtin_run_ends_in_success (fuel : nat) (eng eng' : WorkflowEngine)
    (execution_id : string) (es : ExecutionState) (top : dict)
    (calls : list (string * dict)) (w w' : World) :
  executors eng = builtin_executors →
  running_executions eng !! execution_id = Some es →
  input (es_execution es) = Some top →
  (∀ node, node ∈ nodes (definition (es_workflow es)) →
           node_type node ∈ known_types) →
  (∀ e, e ∈ edges (definition (es_workflow es)) →
        from_node e ∈ node_ids (definition (es_workflow es))
        ∧ to_node e ∈ node_ids (definition (es_workflow es))) →
  _execute_workflow_async fuel eng execution_id w = Some (eng', calls, w') →
  (data_sized top → status_of eng' execution_id = Some SUCCESS)
  ∧ (¬ data_sized top →
     (status_of eng' execution_id = Some SUCCESS
      ∧ ∀ c, c ∈ calls.*1 → ¬ agent_call (definition (es_workflow es)) c)
     ∨ (status_of eng' execution_id = Some FAILED
        ∧ (∃ msg,
             py_len (default (VList []) (top !! "data"))
             = Raise (PyError "TypeError" msg)
             ∧ error <$> record_of eng' execution_id = Some (Some msg))
        ∧ ∃ earlier c input_data,
            calls = earlier ++ [(c, input_data)]
            ∧ agent_call (definition (es_workflow es)) c
            ∧ ∀ c', c' ∈ earlier.*1 →
                    ¬ agent_call (definition (es_workflow es)) c')).
Proof.
  intros Hex Hes Htop Htypes Hedges Htask.
  destruct (execute_task_inv _ _ _ _ _ _ _ _ Hes Htask)
    as (exit & st & w1 & Hrun & -> & _ & Hrec).
  rewrite Hex, Htop in Hrun.
  unfold status_of, record_of in *.
  destruct (running_executions eng' !! execution_id) as [es'|]; [|done].
  simpl in *. injection Hrec as Hrec. split.
  - intros Hdata.
    apply (builtin_loop_never_raises _ _ Htypes Hedges Hdata) in Hrun as ->.
    by rewrite Hrec.
  - intros Hdata.
    pose proof (unsized_loop _ _ Htypes Hedges Hdata _ _ _ _ _ Hrun) as Hexit.
    destruct exit as [|err].
    + left. by rewrite Hrec.
    + right. destruct Hexit as [(msg & -> & Hmsg) Hlast].
      rewrite Hrec. split_and!; [done| |done]. by exists msg.
Qed.

(** C6 (as the code has it): the executor of a condition node returns
    [result = True] whatever its expression and input, and the loop does
    not read the condition of an edge: a run of a definition is the run of
    the definition without its conditions.  On a well-formed acyclic
    definition a loop that ends by an empty queue has completed the target
    of every edge, and has skipped no node. *)
Theorem conditions_are_ignored (execs : gmap string Executor)
    (d : WorkflowDefinition) (top_input : option dict) (w : World) :
  well_formed d → acyclic d →
  (∀ node input_data w0,
     ∃ out, ConditionExecutor node input_data w0 = (Ok out, tick w0)
            ∧ out !! "result" = Some (VBool true))
  ∧ (∀ fuel,
       while_loop execs d top_input fuel (loop_init d) w
       = while_loop execs (without_conditions d) top_input fuel
           (loop_init (without_conditions d)) w)
  ∧ ∀ fuel st w' e,
      while_loop execs d top_input fuel (loop_init d) w = Some (Finished, st, w') →
      e ∈ edges d →
      to_node e ∈ completed_nodes st
      ∧ to_node e ∈ (dispatched st).*1
      ∧ skipped_nodes d st = [].
Proof.
  intros Hwf Hacyc. split_and!.
  - intros node input_data w0.
    destruct (ConditionExecutor_ok node input_data w0) as (out & ? & _ & ?).
    by exists out.
  - intros fuel.
    by rewrite while_loop_without_conditions, loop_init_without_conditions.
  - intros fuel st w' e Hrun He.
    destruct (while_loop_finished _ _ _ Hwf Hacyc _ _ _ _ Hrun)
      as (Hperm & Hcomp & _ & Hskip).
    assert (to_node e ∈ node_ids d) as Hdecl by by apply Hwf.
    split_and!; [|by rewrite Hperm|done].
    rewrite Hcomp. by apply elem_of_list_to_set.
Qed.

End task_facts.

(** ** The clock during a run of the built-in executors *)

Section builtin_clock.
Context {platform : Platform}.
Variable d : WorkflowDefinition.
Variable top : dict.
Hypothesis types_known : ∀ node, node ∈ nodes d → node_type node ∈ known_types.
Hypothesis edges_declared :
  ∀ e, e ∈ edges d → from_node e ∈ node_ids d ∧ to_node e ∈ node_ids d.
Hypothesis top_data_sized : data_sized top.

(** The loop only reads the clock: the number of readings never goes
    down. *)
Lemma builtin_loop_clock (fuel : nat) :
  ∀ (st st' : LoopState) (exit : LoopExit) (w w' : World),
    builtin_inv d st →
    while_loop builtin_executors d (Some top) fuel st w = Some (exit, st', w') →
    (clock_reads w ≤ clock_reads w')%nat.
Proof.
  induction fuel as [|fuel IH]; intros st st' exit w w' Hinv; simpl; [done|].
  destruct (execution_queue st) as [|cur queue] eqn:Hq.
  { by intros [= _ _ <-]. }
  destruct (loop_body builtin_executors d (Some top) cur queue st w)
    as [st1 w1|exit1 st1 w1] eqn:Hb.
  2:{ exfalso. eapply (builtin_inv_no_Stop d top); eauto. }
  intros Hrun.
  assert (builtin_inv d st1) as Hinv1
    by (eapply (builtin_inv_Next d top); eauto).
  specialize (IH _ _ _ _ _ Hinv1 Hrun).
  apply loop_body_Next in Hb
    as [(_ & -> & _)|[(_ & -> & _)|(_ & _ & node & top' & ex & out
                                     & Hnode & [= <-] & Hex & Hexec & _)]];
    [done..|].
  apply nodes_by_id_Some in Hnode as [Hnode _].
  destruct (builtin_executors_lookup _ (types_known _ Hnode)) as (ex' & Hex' & Hok).
  rewrite Hex in Hex'. injection Hex' as <-.
  destruct (Hok node (prepare_input top (dependencies d cur) (node_outputs st)) w)
    as (out' & Hexec' & _).
  { unfold data_sized. rewrite prepare_input_data; [done|]. apply Hinv. }
  rewrite Hexec in Hexec'. injection Hexec' as _ ->. simpl in IH. lia.
Qed.

End builtin_clock.

(** ** The linear chain *)

Section chain_runs.
Context {platform : Platform}.
Variables c_trigger c_connector c_agent c_action : dict.
Variable top : dict.

Abbreviation the_chain :=
  (chain_definition c_trigger c_connector c_agent c_action).

(** C7: on an engine with the built-in executors whose clock does not go
    back, submitting the chain trigger, connector, agent, action with an
    input on which the agent executor succeeds and running the task ends
    with status SUCCESS, an output of the record whose [node_outputs]
    entry has exactly the keys trigger, connector, agent and action and
    whose [completed_nodes] entry lists the same four, and a completion
    time that is set and not before the start time. *)
Theorem chain_run_succeeds (eng : WorkflowEngine) (workflow : Workflow)
    (w : World) :
  executors eng = builtin_executors →
  definition workflow = the_chain →
  data_sized top →
  (∀ i j : nat, (i ≤ j)%nat → (utcnow_at i ≤ utcnow_at j)%Z) →
  ∃ fuel eng' calls w' e o outputs names ts tc,
    _execute_workflow_async fuel (execute_workflow eng workflow top w).1.2
      (execute_workflow eng workflow top w).1.1
      (execute_workflow eng workflow top w).2 = Some (eng', calls, w')
    ∧ record_of eng' (execute_workflow eng workflow top w).1.1 = Some e
    ∧ status e = SUCCESS
    ∧ output e = Some o
    ∧ o !! "node_outputs" = Some (VDict outputs)
    ∧ dom outputs = {[ "trigger"; "connector"; "agent"; "action" ]}
    ∧ o !! "completed_nodes" = Some (VList (VStr <$> names))
    ∧ names ≡ₚ ["trigger"; "connector"; "agent"; "action"]
    ∧ calls.*1 ≡ₚ ["trigger"; "connector"; "agent"; "action"]
    ∧ started_at e = Some ts ∧ completed_at e = Some tc ∧ (ts ≤ tc)%Z.
Proof.
  intros Hex Hdef Hdata Hmono.
  destruct (execute_workflow_spec eng workflow top w) as (es & Hes & Hwf & Hin & Hst & Hexs).
  set (eng1 := (execute_workflow eng workflow top w).1.2) in *.
  set (id := (execute_workflow eng workflow top w).1.1) in *.
  set (w1 := (execute_workflow eng workflow top w).2) in *.
  assert (definition (es_workflow es) = the_chain) as Hd by by rewrite Hwf.
  pose proof (chain_well_formed c_trigger c_connector c_agent c_action) as Hwfd.
  pose proof (chain_acyclic c_trigger c_connector c_agent c_action) as Hacyc.
  pose proof (chain_types_known c_trigger c_connector c_agent c_action) as Htypes.
  destruct (while_loop_terminates (executors eng1) the_chain (Some top)
              Hwfd Hacyc w1) as (fuel & exit & st & w2 & Hrun).
  pose proof Hrun as Hrun'. rewrite Hexs, Hex in Hrun'.
  pose proof (builtin_loop_never_raises _ _ Htypes (proj2 Hwfd) Hdata _ _ _ _ _ Hrun')
    as ->.
  pose proof (builtin_loop_clock _ _ Htypes (proj2 Hwfd) Hdata _ _ _ _ _ _
                (builtin_inv_init the_chain) Hrun') as Hclock.
  destruct (while_loop_finished _ _ _ Hwfd Hacyc _ _ _ _ Hrun)
    as (Hperm & Hcomp & _ & _).
  destruct (inputs_inv_run _ _ _ _ _ _ _ _ _ (inputs_inv_init the_chain top) Hrun)
    as [Hdom _].
  rewrite <- Hd, <- Hin in Hrun.
  destruct (execute_task_of_loop _ _ _ _ _ _ _ _ Hes Hrun)
    as (eng' & Htask & _ & Hrec & _).
  exists fuel, eng', (dispatched st), (tick w2),
    (finished_record (es_execution es) st w2), (success_output st),
    (VDict <$> node_outputs st), (elements (completed_nodes st)),
    (utcnow_at (clock_reads w)), (utcnow_at (clock_reads w2)).
  do 3 (split; [done|]). split; [done|].
  split; [apply success_output_node_outputs|]. split.
  { rewrite dom_fmap_L. apply set_eq. intros n.
    rewrite elem_of_dom, <- Hdom, Hcomp, elem_of_list_to_set.
    unfold node_ids, chain_definition. simpl.
    rewrite !elem_of_cons, elem_of_nil, !elem_of_union, !elem_of_singleton.
    tauto. }
  split; [apply success_output_completed_nodes|]. split.
  { rewrite Hcomp. apply (elements_list_to_set (node_ids the_chain)), Hwfd. }
  split; [done|].
  split; [by simpl|]. split; [done|].
  apply Hmono. unfold w1, execute_workflow in Hclock. simpl in Hclock. lia.
Qed.

End chain_runs.

(** ** The chain with an agent executor that raises *)

Section chain_failure.
Context {platform : Platform}.
Variables c_trigger c_connector c_agent c_action : dict.
Variable top : dict.
Variable execs : gmap string Executor.
Variable agent_executor : Executor.
Variable err : exn.
Hypothesis execs_trigger : execs !! "trigger" = Some TriggerExecutor.
Hypothesis execs_connector : execs !! "connector" = Some ConnectorExecutor.
Hypothesis execs_agent : execs !! "agent" = Some agent_executor.
Hypothesis agent_raises :
  ∀ node input_data w, ∃ w', agent_executor node input_data w = (Raise err, w').

Abbreviation failing_chain :=
  (chain_definition c_trigger c_connector c_agent c_action).

(** The loop calls the executors of trigger, connector and agent, in that
    order, and is left by the exception of the agent in its third
    iteration; trigger and connector are completed and have outputs. *)
Lemma chain_loop_fails (w : World) :
  ∃ st w',
    while_loop execs failing_chain (Some top) 3 (loop_init failing_chain) w
      = Some (Raised err, st, w')
    ∧ (dispatched st).*1 = ["trigger"; "connector"; "agent"]
    ∧ dom (node_outputs st) = {[ "trigger"; "connector" ]}.
Proof.
  destruct (TriggerExecutor_ok (mk_node "trigger" "trigger" c_trigger)
              (prepare_input top (dependencies failing_chain "trigger") ∅) w)
    as (o1 & H1 & _).
  rewrite (while_loop_executes execs failing_chain top 2 (loop_init failing_chain)
             w (tick w) "trigger" [] (mk_node "trigger" "trigger" c_trigger)
             TriggerExecutor o1);
    [|by vm_compute|by apply not_elem_of_empty|by vm_compute; constructor
     |by vm_compute|done|done].
  set (st1 := {| execution_queue := _ |}).
  destruct (ConnectorExecutor_ok (mk_node "connector" "connector" c_connector)
              (prepare_input top (dependencies failing_chain "connector")
                 (node_outputs st1)) (tick w))
    as (o2 & H2 & _).
  rewrite (while_loop_executes execs failing_chain top 1 st1
             (tick w) (tick (tick w)) "connector" []
             (mk_node "connector" "connector" c_connector)
             ConnectorExecutor o2);
    [|by vm_compute| | |by vm_compute|done|done].
  2:{ simpl. rewrite elem_of_union, elem_of_singleton.
      intros [[=]|Hin]. by apply elem_of_empty in Hin. }
  2:{ change (dependencies failing_chain "connector") with ["trigger"].
      constructor; [|constructor]. simpl.
      apply elem_of_union. left. by apply elem_of_singleton. }
  set (st2 := {| execution_queue := _ |}).
  destruct (agent_raises (mk_node "agent" "agent" c_agent)
              (prepare_input top (dependencies failing_chain "agent")
                 (node_outputs st2)) (tick (tick w)))
    as (w3 & H3).
  rewrite (while_loop_raises execs failing_chain top 0 st2
             (tick (tick w)) w3 "agent" []
             (mk_node "agent" "agent" c_agent) agent_executor err);
    [|by vm_compute| | |by vm_compute|done|done].
  2:{ simpl. rewrite !elem_of_union, !elem_of_singleton.
      intros [[=]|[[=]|Hin]]. by apply elem_of_empty in Hin. }
  2:{ change (dependencies failing_chain "agent") with ["connector"].
      constructor; [|constructor]. simpl.
      apply elem_of_union. left. by apply elem_of_singleton. }
  eexists _, w3. split; [reflexivity|]. split; [reflexivity|].
  simpl. rewrite !dom_insert_L, dom_empty_L.
  apply set_eq. intros n. rewrite !elem_of_union, !elem_of_singleton, elem_of_empty.
  tauto.
Qed.

End chain_failure.

Section failing_agent.
Context {platform : Platform}.

(** C5 (as the code has it): for the chain trigger, connector, agent,
    action on an engine whose agent executor raises an exception with the
    text ["LLM unavailable"], the task ends within three iterations with
    status FAILED, that text as error and the completion time set; the
    executors of trigger, connector and agent were called, in that order,
    and the executor of action was not.  The record gets no node outputs:
    its output and the [node_outputs] entry of the execution state stay as
    they were. *)
Theorem failing_agent_run (fuel : nat) (eng : WorkflowEngine)
    (execution_id : string) (es : ExecutionState) (w : World)
    (c_trigger c_connector c_agent c_action top : dict)
    (agent_executor : Executor) (cls : string) :
  (3 ≤ fuel)%nat →
  running_executions eng !! execution_id = Some es →
  definition (es_workflow es)
    = chain_definition c_trigger c_connector c_agent c_action →
  input (es_execution es) = Some top →
  executors eng !! "trigger" = Some TriggerExecutor →
  executors eng !! "connector" = Some ConnectorExecutor →
  executors eng !! "agent" = Some agent_executor →
  (∀ node input_data w0,
     ∃ w1, agent_executor node input_data w0
           = (Raise (PyError cls "LLM unavailable"), w1)) →
  ∃ eng' calls w' e tc,
    _execute_workflow_async fuel eng execution_id w = Some (eng', calls, w')
    ∧ record_of eng' execution_id = Some e
    ∧ status e = FAILED
    ∧ error e = Some "LLM unavailable"
    ∧ completed_at e = Some tc
    ∧ calls.*1 = ["trigger"; "connector"; "agent"]
    ∧ output e = output (es_execution es)
    ∧ es_node_outputs <$> running_executions eng' !! execution_id
      = Some (es_node_outputs es).
Proof.
  intros Hfuel Hes Hd Htop Ht Hc Ha Hraise.
  destruct (chain_loop_fails c_trigger c_connector c_agent c_action top
              (executors eng) agent_executor _ Ht Hc Ha Hraise w)
    as (st & w1 & Hrun & Hcalls & _).
  apply (while_loop_fuel_mono _ _ _ 3 fuel) in Hrun; [|done].
  rewrite <- Hd, <- Htop in Hrun.
  destruct (execute_task_of_loop _ _ _ _ _ _ _ _ Hes Hrun)
    as (eng' & Htask & _ & Hrec & Hno & _).
  exists eng', (dispatched st), (tick w1),
    (failed_record (es_execution es) (PyError cls "LLM unavailable") w1),
    (utcnow_at (clock_reads w1)).
  by split_and!.
Qed.

End failing_agent.

(** ** Closed instances of the runs *)

Lemma merge_well_formed : well_formed merge_definition.
Proof.
  split.
  - apply (bool_decide_unpack _). by vm_compute.
  - intros e He. unfold merge_definition in He. simpl in He.
    rewrite !elem_of_cons, elem_of_nil in He.
    destruct He as [->|[->|[]]]; split; apply (bool_decide_unpack _); by vm_compute.
Qed.

Lemma condition_well_formed : well_formed condition_definition.
Proof.
  split.
  - apply (bool_decide_unpack _). by vm_compute.
  - intros e He. unfold condition_definition in He. simpl in He.
    rewrite !elem_of_cons, elem_of_nil in He.
    destruct He as [->|[->|[]]]; split; apply (bool_decide_unpack _); by vm_compute.
Qed.

Lemma condition_acyclic : acyclic condition_definition.
Proof.
  apply (ranked_acyclic _ condition_rank). intros e He.
  unfold condition_definition in He. simpl in He.
  rewrite !elem_of_cons, elem_of_nil in He.
  destruct He as [->|[->|[]]]; vm_compute; lia.
Qed.

Lemma example_loop_exit (d : WorkflowDefinition) (top : dict) (fuel : nat)
    (exit : LoopExit) :
  (λ r, r.1.1) <$> example_loop d top fuel = Some exit →
  example_loop d top fuel
  = Some (exit, final_state d top fuel, final_world d top fuel).
Proof.
  unfold final_state, final_world.
  destruct (example_loop d top fuel) as [[[exit' st] w]|]; [|done].
  simpl. by intros [= ->].
Qed.

Lemma merge_loop :
  example_loop merge_definition ∅ 5
  = Some (Finished, final_state merge_definition ∅ 5,
          final_world merge_definition ∅ 5).
Proof. apply example_loop_exit. vm_compute. reflexivity. Qed.

Lemma input_merges_in_edge_order_witness :
  dependencies merge_definition "c" = ["b"; "a"]
  ∧ ("c", input_at 2 (final_state merge_definition ∅ 5))
    ∈ dispatched (final_state merge_definition ∅ 5)
  ∧ ∃ op oq,
      node_outputs (final_state merge_definition ∅ 5) !! "b" = Some op
      ∧ node_outputs (final_state merge_definition ∅ 5) !! "a" = Some oq
      ∧ input_at 2 (final_state merge_definition ∅ 5) = oq ∪ (op ∪ ∅)
      ∧ (∀ k, is_Some (op !! k) ∨ is_Some (oq !! k)
              → is_Some (input_at 2 (final_state merge_definition ∅ 5) !! k))
      ∧ (∀ k v, oq !! k = Some v
                → input_at 2 (final_state merge_definition ∅ 5) !! k = Some v).
Proof.
  assert (("c", input_at 2 (final_state merge_definition ∅ 5))
          ∈ dispatched (final_state merge_definition ∅ 5)) as Hin.
  { apply (list_elem_of_lookup_2 _ 2). vm_compute. reflexivity. }
  split; [reflexivity|]. split; [exact Hin|].
  apply (input_merges_in_edge_order (@builtin_executors example_platform)
           merge_definition ∅ 5 Finished (final_state merge_definition ∅ 5)
           world0 (final_world merge_definition ∅ 5) "c" "b" "a"
           (input_at 2 (final_state merge_definition ∅ 5))).
  - vm_compute. reflexivity.
  - exact Hin.
  - reflexivity.
Defined.

(** C3, the claim as the specification words it, fails: [c] has the
    predecessors [a] and [b], the edge from [b] comes first, and on the key
    both outputs have the input of [c] carries the value of [a]. *)
Lemma merge_prefers_later_edge :
  String.ltb "a" "b" = true
  ∧ dependencies merge_definition "c" = ["b"; "a"]
  ∧ (λ r, r.1.1) <$> example_loop merge_definition ∅ 5 = Some Finished
  ∧ (dispatched (final_state merge_definition ∅ 5)).*1 = ["a"; "b"; "c"]
  ∧ node_outputs (final_state merge_definition ∅ 5) !! "a" ≫= (.!! "trigger_type")
    = Some (VStr "schedule")
  ∧ node_outputs (final_state merge_definition ∅ 5) !! "b" ≫= (.!! "trigger_type")
    = Some (VStr "manual")
  ∧ input_at 2 (final_state merge_definition ∅ 5) !! "trigger_type"
    = Some (VStr "schedule").
Proof. repeat split; vm_compute; reflexivity. Qed.

Lemma failing_agent_run_witness :
  ∃ eng' calls w' e tc,
    run_submitted 3 (submit_on failing_engine plain_chain ∅) = Some (eng', calls, w')
    ∧ record_of eng' "execution-0" = Some e
    ∧ status e = FAILED
    ∧ error e = Some "LLM unavailable"
    ∧ completed_at e = Some tc
    ∧ calls.*1 = ["trigger"; "connector"; "agent"]
    ∧ output e = None
    ∧ es_node_outputs <$> running_executions eng' !! "execution-0" = Some ∅.
Proof.
  exact (@failing_agent_run example_platform 3
           (submit_on failing_engine plain_chain ∅).1.2 "execution-0" _
           (submit_on failing_engine plain_chain ∅).2 ∅ ∅ ∅ ∅ ∅
           (raising_executor llm_unavailable) "ExecutionError"
           (le_n 3) eq_refl eq_refl eq_refl eq_refl eq_refl eq_refl
           (λ node input_data w0, ex_intro _ w0 eq_refl)).
Defined.

(** C5, the claim as the specification words it, fails: the record of the
    failed run carries no node outputs, neither in its output, which stays
    [None], nor in the [node_outputs] entry of the execution state, which
    stays empty. *)
Lemma failed_run_has_no_node_outputs :
  (λ r, (status_of r.1.1 "execution-0",
         output <$> record_of r.1.1 "execution-0",
         es_node_outputs <$> running_executions r.1.1 !! "execution-0",
         r.1.2.*1))
    <$> run_submitted 3 (submit_on failing_engine plain_chain ∅)
  = Some (Some FAILED, Some None, Some ∅, ["trigger"; "connector"; "agent"]).
Proof. vm_compute. reflexivity. Qed.

Lemma conditions_are_ignored_witness :
  well_formed condition_definition
  ∧ acyclic condition_definition
  ∧ (∀ node input_data w0,
       ∃ out, @ConditionExecutor example_platform node input_data w0
              = (Ok out, tick w0)
              ∧ out !! "result" = Some (VBool true))
  ∧ (∀ fuel,
       example_loop condition_definition ∅ fuel
       = example_loop (without_conditions condition_definition) ∅ fuel)
  ∧ ∀ fuel st w' e,
      example_loop condition_definition ∅ fuel = Some (Finished, st, w') →
      e ∈ edges condition_definition →
      to_node e ∈ completed_nodes st
      ∧ to_node e ∈ (dispatched st).*1
      ∧ skipped_nodes condition_definition st = [].
Proof.
  split; [exact condition_well_formed|]. split; [exact condition_acyclic|].
  exact (@conditions_are_ignored example_platform
           (@builtin_executors example_platform) condition_definition
           (Some ∅) world0 condition_well_formed condition_acyclic).
Defined.

(** C6, the claim as the specification words it, fails: the expression of
    the condition node and of its outgoing edge is the literal [false], the
    executor of the condition node returns [result = True], the target of
    the edge is executed and completed, and no node is skipped. *)
Lemma false_condition_runs_target :
  literal_value "false" = Some false
  ∧ (condition <$> edges condition_definition) = [None; Some "false"]
  ∧ (λ r, r.1.1) <$> example_loop condition_definition ∅ 4 = Some Finished
  ∧ (dispatched (final_state condition_definition ∅ 4)).*1
    = ["start"; "check"; "notify"]
  ∧ node_outputs (final_state condition_definition ∅ 4) !! "check"
      ≫= (.!! "condition") = Some (VStr "false")
  ∧ node_outputs (final_state condition_definition ∅ 4) !! "check"
      ≫= (.!! "result") = Some (VBool true)
  ∧ bool_decide ("notify" ∈ completed_nodes (final_state condition_definition ∅ 4))
    = true
  ∧ skipped_nodes condition_definition (final_state condition_definition ∅ 4) = [].
Proof. repeat split; vm_compute; reflexivity. Qed.

Lemma chain_run_succeeds_witness :
  ∃ fuel eng' calls w' e o outputs names ts tc,
    run_submitted fuel (submit plain_chain ∅) = Some (eng', calls, w')
    ∧ record_of eng' "execution-0" = Some e
    ∧ status e = SUCCESS
    ∧ output e = Some o
    ∧ o !! "node_outputs" = Some (VDict outputs)
    ∧ dom outputs = {[ "trigger"; "connector"; "agent"; "action" ]}
    ∧ o !! "completed_nodes" = Some (VList (VStr <$> names))
    ∧ names ≡ₚ ["trigger"; "connector"; "agent"; "action"]
    ∧ calls.*1 ≡ₚ ["trigger"; "connector"; "agent"; "action"]
    ∧ started_at e = Some ts
    ∧ completed_at e = Some tc
    ∧ (ts ≤ tc)%Z.
Proof.
  apply (@chain_run_succeeds example_platform ∅ ∅ ∅ ∅ ∅ fresh_engine
           (mk_workflow plain_chain) world0).
  - reflexivity.
  - reflexivity.
  - exact I.
  - intros i j Hij. simpl. lia.
Defined.

Lemma acyclic_run_executes_each_node_once_witness :
  (∃ fuel eng' calls w',
     run_submitted fuel (submit plain_chain ∅) = Some (eng', calls, w'))
  ∧ ∀ fuel eng' calls w',
      run_submitted fuel (submit plain_chain ∅) = Some (eng', calls, w') →
      status_of eng' "execution-0" = Some SUCCESS →
      calls.*1 ≡ₚ ["trigger"; "connector"; "agent"; "action"]
      ∧ ∃ o names,
          output <$> record_of eng' "execution-0" = Some (Some o)
          ∧ o !! "completed_nodes" = Some (VList (VStr <$> names))
          ∧ names ≡ₚ ["trigger"; "connector"; "agent"; "action"]
          ∧ length names
            = (4 - length (filter (λ n, n ∉ names)
                             ["trigger"; "connector"; "agent"; "action"]))%nat
          ∧ filter (λ n, n ∉ names)
              ["trigger"; "connector"; "agent"; "action"] = [].
Proof.
  exact (@acyclic_run_executes_each_node_once example_platform
           (submit plain_chain ∅).1.2 "execution-0" _ (submit plain_chain ∅).2
           eq_refl (chain_well_formed ∅ ∅ ∅ ∅) (chain_acyclic ∅ ∅ ∅ ∅)).
Defined.

Lemma orphan_acyclic : acyclic orphan_definition.
Proof.
  apply (ranked_acyclic _ orphan_rank). intros e He.
  unfold orphan_definition in He. simpl in He.
  apply list_elem_of_singleton in He as ->. vm_compute. lia.
Qed.

(** C8, the claim as the specification words it, fails: the graph has two
    nodes, no cycle and no condition, the run ends in SUCCESS, and the
    executor of [b] was not called: the completed nodes are one, not
    two. *)
Lemma undeclared_source_leaves_node_out :
  acyclic orphan_definition
  ∧ length (nodes orphan_definition) = 2
  ∧ condition <$> edges orphan_definition = [None]
  ∧ (λ r, (status_of r.1.1 "execution-0", r.1.2.*1,
           record_of r.1.1 "execution-0" ≫= completed_entry))
      <$> run_submitted 2 (submit orphan_definition ∅)
    = Some (Some SUCCESS, ["a"], Some (VList [VStr "a"])).
Proof.
  split; [exact orphan_acyclic|]. split_and!; vm_compute; reflexivity.
Qed.

Lemma finished_task
    (r : option (WorkflowEngine * list (string * dict) * World)) :
  (λ _, ()) <$> r = Some () →
  r = Some (finished_engine r, finished_calls r, finished_world r).
Proof. by destruct r as [[[eng calls] w]|]. Qed.

Lemma two_items_task :
  run_submitted 5 (submit plain_chain two_items)
  = Some (finished_engine (run_submitted 5 (submit plain_chain two_items)),
          finished_calls (run_submitted 5 (submit plain_chain two_items)),
          finished_world (run_submitted 5 (submit plain_chain two_items))).
Proof. apply finished_task. vm_compute. reflexivity. Qed.

Lemma number_task :
  run_submitted 3 (submit plain_chain number_data)
  = Some (finished_engine (run_submitted 3 (submit plain_chain number_data)),
          finished_calls (run_submitted 3 (submit plain_chain number_data)),
          finished_world (run_submitted 3 (submit plain_chain number_data))).
Proof. apply finished_task. vm_compute. reflexivity. Qed.

(** The chain on an input with two items of data, and on an input whose
    data is a number. *)
Lemma builtin_run_ends_in_success_witness :
  (data_sized two_items
   ∧ status_of (finished_engine (run_submitted 5 (submit plain_chain two_items)))
       "execution-0" = Some SUCCESS)
  ∧ (¬ data_sized number_data)
  ∧ ((status_of
        (finished_engine (run_submitted 3 (submit plain_chain number_data)))
        "execution-0" = Some SUCCESS
      ∧ ∀ c, c ∈ (finished_calls
                    (run_submitted 3 (submit plain_chain number_data))).*1 →
             ¬ agent_call plain_chain c)
     ∨ (status_of
          (finished_engine (run_submitted 3 (submit plain_chain number_data)))
          "execution-0" = Some FAILED
        ∧ (∃ msg,
             py_len (default (VList []) (number_data !! "data"))
             = Raise (PyError "TypeError" msg)
             ∧ error <$>
                 record_of
                   (finished_engine
                      (run_submitted 3 (submit plain_chain number_data)))
                   "execution-0" = Some (Some msg))
        ∧ ∃ earlier c input_data,
            finished_calls (run_submitted 3 (submit plain_chain number_data))
            = earlier ++ [(c, input_data)]
            ∧ agent_call plain_chain c
            ∧ ∀ c', c' ∈ earlier.*1 → ¬ agent_call plain_chain c'))
  ∧ (finished_calls (run_submitted 3 (submit plain_chain number_data))).*1
    = ["trigger"; "connector"; "agent"]
  ∧ status_of
      (finished_engine (run_submitted 3 (submit plain_chain number_data)))
      "execution-0" = Some FAILED.
Proof.
  assert (¬ data_sized number_data) as Hnumber by (by intros []).
  split_and!; [| | | |vm_compute; reflexivity|vm_compute; reflexivity].
  - exact I.
  - exact (proj1 (@builtin_run_ends_in_success example_platform 5
                    (submit plain_chain two_items).1.2 _ "execution-0" _
                    two_items _ (submit plain_chain two_items).2 _
                    eq_refl eq_refl eq_refl (chain_types_known ∅ ∅ ∅ ∅)
                    (proj2 (chain_well_formed ∅ ∅ ∅ ∅)) two_items_task) I).
  - exact Hnumber.
  - exact (proj2 (@builtin_run_ends_in_success example_platform 3
                    (submit plain_chain number_data).1.2 _ "execution-0" _
                    number_data _ (submit plain_chain number_data).2 _
                    eq_refl eq_refl eq_refl (chain_types_known ∅ ∅ ∅ ∅)
                    (proj2 (chain_well_formed ∅ ∅ ∅ ∅)) number_task) Hnumber).
Defined.

(** C10, the claim as the specification words it, fails: the node has a
    known type and the definition has no edge, and the executor of the
    agent node raises on a top-level input whose ["data"] entry is a number:
    the task ends in FAILED. *)
Lemma unsized_data_fails_agent :
  (node_type <$> nodes agent_definition) = ["agent"]
  ∧ edges agent_definition = []
  ∧ (λ r, (status_of r.1.1 "execution-0",
           error <$> record_of r.1.1 "execution-0",
           r.1.2.*1))
      <$> run_submitted 2 (submit agent_definition {[ "data" := VInt 5 ]})
    = Some (Some FAILED, Some (Some "object of type 'int' has no len()"),
            ["agent"]).
Proof. repeat split; vm_compute; reflexivity. Qed.

(** ** The order of the calls *)

Section order_facts.
Variable execs : gmap string Executor.
Variable d : WorkflowDefinition.
Variable top_input : option dict.

Lemma dependency_order_snoc (calls : list string) (c : string) :
  dependency_order d calls →
  Forall (λ p, p ∈ calls) (dependencies d c) →
  dependency_order d (calls ++ [c]).
Proof.
  intros Hord Hc i x Hi.
  destruct (decide (i < length calls)%nat) as [Hlt|Hge].
  - rewrite lookup_app_l in Hi by done.
    rewrite take_app_le by lia. by apply Hord.
  - rewrite lookup_app_r in Hi by lia.
    apply list_lookup_singleton_Some in Hi as [Hi <-].
    assert (i = length calls) as -> by lia.
    by rewrite take_app_length.
Qed.

Lemma calls_inv_init : calls_inv d (loop_init d).
Proof.
  unfold calls_inv, loop_init. simpl. split_and!.
  - intros n. rewrite elem_of_nil. set_solver.
  - by rewrite dom_empty_L.
  - constructor.
  - intros i c Hi. done.
Qed.

Lemma calls_inv_Next (cur : string) (queue : list string)
    (st st' : LoopState) (w w' : World) :
  calls_inv d st →
  loop_body execs d top_input cur queue st w = Next st' w' →
  calls_inv d st'.
Proof.
  intros (Hcomp & Hdom & Hnd & Hord) Hb.
  apply loop_body_Next in Hb
    as [(_ & _ & ->)|[(_ & _ & _ & ->)|(Hc & Hdeps & node & top & ex & out
                                         & _ & _ & _ & _ & ->)]];
    [done..|].
  unfold calls_inv. simpl. rewrite fmap_app. simpl. split_and!.
  - intros n. rewrite elem_of_union, elem_of_singleton, elem_of_app,
      list_elem_of_singleton, Hcomp. tauto.
  - by rewrite dom_insert_L, Hdom.
  - apply NoDup_app. split_and!; [done| |apply NoDup_singleton].
    intros x Hx. rewrite list_elem_of_singleton. intros ->.
    by apply Hc, Hcomp.
  - apply dependency_order_snoc; [done|].
    eapply Forall_impl; [exact Hdeps|]. intros p Hp. by apply Hcomp.
Qed.

Lemma calls_inv_Stop (cur : string) (queue : list string)
    (st st' : LoopState) (exit : LoopExit) (w w' : World) :
  calls_inv d st →
  loop_body execs d top_input cur queue st w = Stop exit st' w' →
  NoDup (dispatched st').*1 ∧ dependency_order d (dispatched st').*1.
Proof.
  intros (Hcomp & Hdom & Hnd & Hord) Hb.
  apply loop_body_Stop in Hb as (Hc & Hdeps & _ & _ & _ & [->|(top & _ & ->)]);
    [done|].
  rewrite fmap_app. simpl. split.
  - apply NoDup_app. split_and!; [done| |apply NoDup_singleton].
    intros x Hx. rewrite list_elem_of_singleton. intros ->.
    by apply Hc, Hcomp.
  - apply dependency_order_snoc; [done|].
    eapply Forall_impl; [exact Hdeps|]. intros p Hp. by apply Hcomp.
Qed.

Lemma calls_inv_run (fuel : nat) (st : LoopState) (w w' : World) :
  while_loop execs d top_input fuel (loop_init d) w = Some (Finished, st, w') →
  calls_inv d st.
Proof.
  intros Hrun.
  pose proof (while_loop_invariant execs d top_input (calls_inv d)
                (λ _ _, True)) as Hgen.
  specialize (Hgen (λ cur queue st w st' w' HP _ Hb,
                      calls_inv_Next cur queue st st' w w' HP Hb)).
  specialize (Hgen (λ cur queue st w e st' w' HP _ Hb, I)).
  by destruct (Hgen fuel _ w Finished st w' calls_inv_init Hrun).
Qed.

(** X1: in every run of the loop that ends, by an empty queue or by an
    exception, on any definition and with any executors, no node is
    executed twice and every node is executed after all the nodes it
    depends on; when the queue is empty the completed nodes, the keys of
    the outputs and the nodes of the calls are the same set. *)
Theorem calls_in_dependency_order (fuel : nat) (exit : LoopExit)
    (st : LoopState) (w w' : World) :
  while_loop execs d top_input fuel (loop_init d) w = Some (exit, st, w') →
  NoDup (dispatched st).*1
  ∧ dependency_order d (dispatched st).*1
  ∧ (exit = Finished →
     dom (node_outputs st) = completed_nodes st
     ∧ completed_nodes st = list_to_set (dispatched st).*1).
Proof.
  intros Hrun.
  pose proof (while_loop_invariant execs d top_input (calls_inv d)
                (λ _ st, NoDup (dispatched st).*1
                         ∧ dependency_order d (dispatched st).*1)) as Hgen.
  specialize (Hgen (λ cur queue st w st' w' HP _ Hb,
                      calls_inv_Next cur queue st st' w w' HP Hb)).
  specialize (Hgen (λ cur queue st w e st' w' HP _ Hb,
                      calls_inv_Stop cur queue st st' _ w w' HP Hb)).
  specialize (Hgen fuel _ w exit st w' calls_inv_init Hrun).
  destruct exit as [|e].
  - destruct Hgen as [(Hcomp & Hdom & Hnd & Hord) _].
    split_and!; [done..|]. intros _. split; [done|].
    apply set_eq. intros n. by rewrite elem_of_list_to_set.
  - destruct Hgen as [Hnd Hord]. by split_and!.
Qed.

End order_facts.

(** In the run of the merge example [c] comes after [a] and [b]. *)
Lemma calls_in_dependency_order_witness :
  NoDup (dispatched (final_state merge_definition ∅ 5)).*1
  ∧ dependency_order merge_definition
      (dispatched (final_state merge_definition ∅ 5)).*1
  ∧ (Finished = Finished →
     dom (node_outputs (final_state merge_definition ∅ 5))
     = completed_nodes (final_state merge_definition ∅ 5)
     ∧ completed_nodes (final_state merge_definition ∅ 5)
       = list_to_set (dispatched (final_state merge_definition ∅ 5)).*1).
Proof.
  exact (calls_in_dependency_order _ _ _ 5 Finished _ world0 _ merge_loop).
Defined.

(** ** A queue of waiting nodes *)

Section stuck_facts.
Variable execs : gmap string Executor.
Variable d : WorkflowDefinition.
Variable top_input : option dict.

Lemma blocked_with_queue (queue : list string) (st : LoopState) (n : string) :
  blocked d (with_queue queue st) n ↔ blocked d st n.
Proof. done. Qed.

(** X2: when every node of a non-empty queue waits for a dependency that is
    not completed, the loop puts the nodes back for ever: it ends within no
    number of iterations, so the task never writes SUCCESS or FAILED. *)
Theorem stuck_queue_never_ends (st : LoopState) (w : World) :
  execution_queue st ≠ [] →
  Forall (blocked d st) (execution_queue st) →
  ∀ fuel, while_loop execs d top_input fuel st w = None.
Proof.
  intros Hne Hb fuel. revert st Hne Hb.
  induction fuel as [|fuel IH]; intros st Hne Hb; simpl; [done|].
  destruct (execution_queue st) as [|cur queue] eqn:Hq; [done|].
  apply Forall_cons in Hb as [Hcur Hb].
  rewrite (loop_body_blocked execs d top_input cur queue st w Hcur).
  apply IH; simpl.
  - by destruct queue.
  - apply Forall_app. split.
    + eapply Forall_impl; [exact Hb|]. intros n Hn. by apply blocked_with_queue.
    + apply Forall_singleton. by apply blocked_with_queue.
Qed.

End stuck_facts.

Lemma stuck_queue_never_ends_witness :
  execution_queue stuck_state ≠ []
  ∧ Forall (blocked entered_cycle_definition stuck_state)
      (execution_queue stuck_state)
  ∧ ∀ fuel,
      while_loop (@builtin_executors example_platform) entered_cycle_definition
        (Some ∅) fuel stuck_state world0 = None.
Proof.
  assert (Forall (blocked entered_cycle_definition stuck_state)
            (execution_queue stuck_state)) as Hb.
  { apply Forall_singleton. apply (bool_decide_unpack _). vm_compute. reflexivity. }
  split; [discriminate|]. split; [exact Hb|].
  apply stuck_queue_never_ends; [discriminate|exact Hb].
Defined.

(** ** A definition without entry nodes *)

Section no_entry_facts.
Context {platform : Platform}.

Lemma entry_nodes_nil (d : WorkflowDefinition) :
  (∀ node, node ∈ nodes d → node_id node ∈ to_node <$> edges d) →
  entry_nodes d = [].
Proof.
  intros Hall. unfold entry_nodes.
  destruct (filter _ (nodes d)) as [|node l] eqn:Hf; [done|].
  assert (node ∈ filter (λ node, node_id node ∉ incoming_edges d) (nodes d))
    as Hin by (rewrite Hf; left).
  apply list_elem_of_filter in Hin as [Hno Hin]. exfalso. apply Hno.
  unfold incoming_edges. apply elem_of_list_to_set. by apply Hall.
Qed.

(** X3: when every node of the definition is the target of an edge, as in a
    definition that is one cycle, the queue starts empty: the task executes
    nothing and ends at once in SUCCESS, with an output that lists no
    completed node. *)
Theorem no_entry_node_succeeds_at_once (fuel : nat) (eng : WorkflowEngine)
    (execution_id : string) (es : ExecutionState) (w : World) :
  running_executions eng !! execution_id = Some es →
  (∀ node, node ∈ nodes (definition (es_workflow es)) →
           node_id node ∈ to_node <$> edges (definition (es_workflow es))) →
  ∃ eng' e,
    _execute_workflow_async (S fuel) eng execution_id w
      = Some (eng', [], tick w)
    ∧ record_of eng' execution_id = Some e
    ∧ status e = SUCCESS
    ∧ completed_at e = Some (utcnow_at (clock_reads w))
    ∧ output e
      = Some {[ "node_outputs" := VDict ∅;
                "completed_nodes" := VList [];
                "execution_summary" := VStr "Workflow completed successfully" ]}.
Proof.
  intros Hes Hall. apply entry_nodes_nil in Hall.
  assert (while_loop (executors eng) (definition (es_workflow es))
            (input (es_execution es)) (S fuel)
            (loop_init (definition (es_workflow es))) w
          = Some (Finished, loop_init (definition (es_workflow es)), w)) as Hrun.
  { simpl. by rewrite Hall. }
  destruct (execute_task_of_loop _ _ _ _ _ _ _ _ Hes Hrun)
    as (eng' & Htask & _ & Hrec & _).
  exists eng', (finished_record (es_execution es)
                  (loop_init (definition (es_workflow es))) w).
  split_and!; [done..|].
  simpl. unfold success_output. simpl.
  by rewrite fmap_empty, elements_empty.
Qed.

End no_entry_facts.

Lemma no_entry_node_succeeds_at_once_witness :
  ∃ eng' e,
    run_submitted 1 (submit cyclic_definition ∅)
      = Some (eng', [], tick (submit cyclic_definition ∅).2)
    ∧ record_of eng' "execution-0" = Some e
    ∧ status e = SUCCESS
    ∧ completed_at e = Some 1700000001%Z
    ∧ output e
      = Some {[ "node_outputs" := VDict ∅;
                "completed_nodes" := VList [];
                "execution_summary" := VStr "Workflow completed successfully" ]}.
Proof.
  eapply (@no_entry_node_succeeds_at_once example_platform 0
            (submit cyclic_definition ∅).1.2 "execution-0" _
            (submit cyclic_definition ∅).2).
  - reflexivity.
  - intros node Hnode. apply (bool_decide_unpack _).
    simpl in Hnode. rewrite !elem_of_cons, elem_of_nil in Hnode.
    destruct Hnode as [->|[->|[]]]; vm_compute; reflexivity.
Defined.

(** ** The ways a run fails *)

Section raise_facts.
Variable execs : gmap string Executor.
Variable d : WorkflowDefinition.
Variable top : dict.

Lemma queue_inv_init : queue_inv d (loop_init d).
Proof. intros n Hn. by left. Qed.

Lemma queue_inv_Next (cur : string) (queue : list string)
    (st st' : LoopState) (w w' : World) :
  queue_inv d st → execution_queue st = cur :: queue →
  loop_body execs d (Some top) cur queue st w = Next st' w' →
  queue_inv d st'.
Proof.
  intros Hinv Hq Hb n.
  assert (∀ m, m ∈ queue → m ∈ entry_nodes d ∨ m ∈ to_node <$> edges d) as Hqueue.
  { intros m Hm. apply Hinv. rewrite Hq. by right. }
  assert (cur ∈ entry_nodes d ∨ cur ∈ to_node <$> edges d) as Hcur.
  { apply Hinv. rewrite Hq. by left. }
  apply loop_body_Next in Hb
    as [(_ & _ & ->)|[(_ & _ & _ & ->)|(_ & _ & node & top' & ex & out
                                         & _ & _ & _ & _ & ->)]]; simpl.
  - apply Hqueue.
  - rewrite elem_of_app, list_elem_of_singleton. intros [Hn| ->]; auto.
  - rewrite elem_of_app. intros [Hn|Hn]; [auto|]. right.
    apply elem_of_successors in Hn as (e & He & _ & <-).
    apply list_elem_of_fmap. eauto.
Qed.

Lemma calls_have_executors_init : calls_have_executors execs d (loop_init d).
Proof. intros c Hc. simpl in Hc. by apply elem_of_nil in Hc. Qed.

Lemma calls_have_executors_Next (cur : string) (queue : list string)
    (st st' : LoopState) (w w' : World) :
  calls_have_executors execs d st →
  loop_body execs d (Some top) cur queue st w = Next st' w' →
  calls_have_executors execs d st'.
Proof.
  intros Hinv Hb.
  apply loop_body_Next in Hb
    as [(_ & _ & ->)|[(_ & _ & _ & ->)|(_ & _ & node & top' & ex & out
                                         & Hnode & _ & Hex & _ & ->)]];
    [done..|].
  intros c. simpl. rewrite fmap_app, elem_of_app. simpl.
  rewrite list_elem_of_singleton. intros [Hc| ->]; [by apply Hinv|].
  exists node. split; [done|]. by rewrite Hex.
Qed.

Lemma raise_reason_Stop (cur : string) (queue : list string)
    (st st' : LoopState) (e : exn) (w w' : World) :
  queue_inv d st → calls_inv d st → execution_queue st = cur :: queue →
  loop_body execs d (Some top) cur queue st w = Stop (Raised e) st' w' →
  raise_reason execs d e st'.
Proof.
  intros Hqueue (Hcomp & _) Hq. unfold loop_body.
  destruct (decide (cur ∈ _)) as [Hc|Hc]; [done|].
  destruct (decide (Forall _ _)) as [Hd|Hd]; [|done].
  assert (cur ∉ (dispatched st).*1) as Hnew by (by rewrite <- Hcomp).
  destruct (nodes_by_id d !! cur) as [node|] eqn:Hnode.
  2:{ intros [= <- <- <-]. left. exists cur. simpl.
      assert (cur ∉ node_ids d) as Hundeclared.
      { intros Hin. apply nodes_by_id_declared in Hin as [node Hin]. congruence. }
      split_and!; [done..| |done].
      destruct (Hqueue cur) as [He|He]; [rewrite Hq; by left| |done].
      apply elem_of_entry_nodes in He as [He _]. done. }
  apply nodes_by_id_Some in Hnode as [Hin <-].
  destruct (execs !! node_type node) as [executor|] eqn:Hex.
  2:{ intros [= <- <- <-]. right. left. by exists node. }
  destruct (executor node _ w) as [[out|e'] w1] eqn:Hrun; [done|].
  intros [= <- <- <-]. right. right.
  exists node, executor, (prepare_input top (dependencies d (node_id node))
                            (node_outputs st)), w, w1.
  simpl. by rewrite last_snoc.
Qed.

(** X4: a run on an input dictionary is left by an exception for one of
    three reasons only: the queue reached the target of an edge that is
    not a declared node (a [KeyError]); the type of a declared node has no
    executor (the exception of the engine, which names the type); or the
    executor of a declared node raised, in which case its call is the last
    one made. *)
Theorem loop_raises_only_for (fuel : nat) (st : LoopState) (e : exn)
    (w w' : World) :
  while_loop execs d (Some top) fuel (loop_init d) w = Some (Raised e, st, w') →
  raise_reason execs d e st.
Proof.
  intros Hrun.
  pose proof (while_loop_invariant execs d (Some top)
                (λ st, queue_inv d st ∧ calls_inv d st)
                (raise_reason execs d)) as Hgen.
  apply (Hgen) with (fuel := fuel) (st := loop_init d) (w := w)
                    (exit := Raised e) (st' := st) (w' := w') in Hrun;
    [done| | |].
  - intros cur queue st0 w0 st1 w1 [Hqi Hci] Hq Hb. split.
    + by eapply queue_inv_Next.
    + by eapply calls_inv_Next.
  - intros cur queue st0 w0 e0 st1 w1 [Hqi Hci] Hq Hb.
    by eapply raise_reason_Stop.
  - split; [apply queue_inv_init|apply calls_inv_init].
Qed.

End raise_facts.

Lemma dangling_loop :
  example_loop dangling_definition ∅ 2
  = Some (Raised (KeyError "ghost"), final_state dangling_definition ∅ 2,
          final_world dangling_definition ∅ 2).
Proof. apply example_loop_exit. vm_compute. reflexivity. Qed.

(** The edge to the undeclared node [ghost] ends the run of the example by
    a [KeyError]; the error the record gets is the key between quotes. *)
Lemma loop_raises_only_for_witness :
  raise_reason (@builtin_executors example_platform) dangling_definition
    (KeyError "ghost") (final_state dangling_definition ∅ 2)
  ∧ (λ r, (status_of r.1.1 "execution-0",
           error <$> record_of r.1.1 "execution-0", r.1.2.*1))
      <$> run_submitted 2 (submit dangling_definition ∅)
    = Some (Some FAILED, Some (Some "'ghost'"), ["a"]).
Proof.
  split.
  - exact (loop_raises_only_for _ _ _ 2 _ _ world0 _ dangling_loop).
  - vm_compute. reflexivity.
Defined.

(** ** A node type without executor *)

Section unknown_type_facts.
Context {platform : Platform}.

Lemma calls_have_executors_Stop (execs : gmap string Executor)
    (d : WorkflowDefinition) (top : dict) (cur : string) (queue : list string)
    (st st' : LoopState) (exit : LoopExit) (w w' : World) :
  calls_have_executors execs d st →
  loop_body execs d (Some top) cur queue st w = Stop exit st' w' →
  calls_have_executors execs d st'.
Proof.
  intros Hinv. unfold loop_body.
  destruct (decide (cur ∈ _)) as [Hc|Hc]; [done|].
  destruct (decide (Forall _ _)) as [Hd|Hd]; [|done].
  destruct (nodes_by_id d !! cur) as [node|] eqn:Hnode.
  2:{ by intros [= <- <- <-]. }
  destruct (execs !! node_type node) as [executor|] eqn:Hex.
  2:{ by intros [= <- <- <-]. }
  destruct (executor node _ w) as [[out|e'] w1] eqn:Hrun; [done|].
  intros [= <- <- <-] c. simpl. rewrite fmap_app, elem_of_app. simpl.
  rewrite list_elem_of_singleton. intros [Hin| ->]; [by apply Hinv|].
  exists node. split; [done|]. by rewrite Hex.
Qed.

Lemma calls_have_executors_run (execs : gmap string Executor)
    (d : WorkflowDefinition) (top : dict) (fuel : nat) (exit : LoopExit)
    (st : LoopState) (w w' : World) :
  while_loop execs d (Some top) fuel (loop_init d) w = Some (exit, st, w') →
  calls_have_executors execs d st.
Proof.
  intros Hrun.
  pose proof (while_loop_invariant execs d (Some top)
                (calls_have_executors execs d)
                (λ _, calls_have_executors execs d)) as Hgen.
  apply (Hgen) with (fuel := fuel) (st := loop_init d) (w := w)
                    (exit := exit) (st' := st) (w' := w') in Hrun.
  - destruct exit; [by destruct Hrun|done].
  - intros cur queue st0 w0 st1 w1 Hinv _ Hb.
    by eapply calls_have_executors_Next.
  - intros cur queue st0 w0 e st1 w1 Hinv _ Hb.
    by eapply calls_have_executors_Stop.
  - apply calls_have_executors_init.
Qed.

Lemma nodes_by_id_unique (d : WorkflowDefinition) (node node' : WorkflowNode) :
  NoDup (node_ids d) → node ∈ nodes d →
  nodes_by_id d !! node_id node = Some node' → node' = node.
Proof.
  intros Hnd Hin Hlook. apply nodes_by_id_Some in Hlook as [Hin' Hid].
  unfold node_ids in Hnd.
  apply list_elem_of_lookup in Hin as [i Hi].
  apply list_elem_of_lookup in Hin' as [j Hj].
  assert (i = j) as ->.
  { eapply NoDup_lookup; [exact Hnd| |].
    - by rewrite list_lookup_fmap, Hi.
    - by rewrite list_lookup_fmap, Hj, <- Hid. }
  congruence.
Qed.

(** X5: on a definition with unique node identifiers, edges between
    declared nodes and no cycle, a node whose type has no executor makes
    every run fail: the task ends, the status it leaves is FAILED, and no
    call was made for that node. *)
Theorem unknown_type_fails (eng : WorkflowEngine) (execution_id : string)
    (es : ExecutionState) (top : dict) (node : WorkflowNode) (w : World) :
  running_executions eng !! execution_id = Some es →
  input (es_execution es) = Some top →
  well_formed (definition (es_workflow es)) →
  acyclic (definition (es_workflow es)) →
  node ∈ nodes (definition (es_workflow es)) →
  executors eng !! node_type node = None →
  ∃ fuel eng' calls w',
    _execute_workflow_async fuel eng execution_id w = Some (eng', calls, w')
    ∧ status_of eng' execution_id = Some FAILED
    ∧ node_id node ∉ calls.*1.
Proof.
  intros Hes Htop Hwf Hacyc Hnode Hnone.
  destruct (while_loop_terminates (executors eng) _ (Some top) Hwf Hacyc w)
    as (fuel & exit & st & w1 & Hrun).
  assert (node_id node ∉ (dispatched st).*1) as Hnot.
  { intros Hin.
    apply (calls_have_executors_run _ _ _ _ _ _ _ _ Hrun) in Hin
      as (node' & Hlook & Hsome).
    apply nodes_by_id_unique in Hlook as ->; [|by apply Hwf|done].
    rewrite Hnone in Hsome. by destruct Hsome. }
  destruct exit as [|e].
  { exfalso. apply Hnot.
    destruct (while_loop_finished _ _ _ Hwf Hacyc _ _ _ _ Hrun) as (Hperm & _).
    rewrite Hperm. apply list_elem_of_fmap. eauto. }
  rewrite <- Htop in Hrun.
  destruct (execute_task_of_loop _ _ _ _ _ _ _ _ Hes Hrun)
    as (eng' & Htask & _ & Hrec & _).
  exists fuel, eng', (dispatched st), (tick w1). split_and!; [done| |done].
  unfold status_of. unfold record_of in Hrec.
  destruct (running_executions eng' !! execution_id) as [es'|]; [|done].
  simpl in *. by injection Hrec as ->.
Qed.

End unknown_type_facts.

Lemma scheduled_well_formed : well_formed scheduled_definition.
Proof.
  split.
  - apply (bool_decide_unpack _). by vm_compute.
  - intros e He. unfold scheduled_definition in He. simpl in He.
    apply list_elem_of_singleton in He as ->.
    split; apply (bool_decide_unpack _); by vm_compute.
Qed.

Lemma scheduled_acyclic : acyclic scheduled_definition.
Proof.
  apply (ranked_acyclic _ scheduled_rank). intros e He.
  unfold scheduled_definition in He. simpl in He.
  apply list_elem_of_singleton in He as ->. vm_compute. lia.
Qed.

(** The first node of the example has the type [schedule]: the run fails
    before any executor is called. *)
Lemma unknown_type_fails_witness :
  (∃ fuel eng' calls w',
     run_submitted fuel (submit scheduled_definition ∅) = Some (eng', calls, w')
     ∧ status_of eng' "execution-0" = Some FAILED
     ∧ "start" ∉ calls.*1)
  ∧ (λ r, (status_of r.1.1 "execution-0",
           error <$> record_of r.1.1 "execution-0", r.1.2.*1))
      <$> run_submitted 1 (submit scheduled_definition ∅)
    = Some (Some FAILED,
            Some (Some "No executor found for node type: schedule"), []).
Proof.
  split.
  - eapply (@unknown_type_fails example_platform
              (submit scheduled_definition ∅).1.2 "execution-0" _ ∅
              (mk_node "start" "schedule" ∅) (submit scheduled_definition ∅).2).
    + reflexivity.
    + reflexivity.
    + exact scheduled_well_formed.
    + exact scheduled_acyclic.
    + left.
    + reflexivity.
  - vm_compute. reflexivity.
Defined.

(** ** The table of the engine *)

Section lifecycle_facts.
Context {platform : Platform}.

Lemma elem_of_get_running_executions (eng : WorkflowEngine) (id : string) :
  id ∈ get_running_executions eng ↔ status_of eng id = Some RUNNING.
Proof.
  unfold get_running_executions, status_of. rewrite list_elem_of_fmap. split.
  - intros ([k es] & -> & Hin). apply list_elem_of_filter in Hin as [Hs Hin].
    apply elem_of_map_to_list in Hin. simpl in *. by rewrite Hin, <- Hs.
  - destruct (running_executions eng !! id) as [es|] eqn:Hes; [|done].
    simpl. intros [= Hs]. exists (id, es). split; [done|].
    apply list_elem_of_filter. split; [done|]. by apply elem_of_map_to_list.
Qed.

(** What the task leaves under its identifier: the record apart, the entry
    changes in [current_node] only. *)
Lemma execute_task_state (fuel : nat) (eng eng' : WorkflowEngine)
    (execution_id : string) (es : ExecutionState) (w w' : World)
    (calls : list (string * dict)) :
  running_executions eng !! execution_id = Some es →
  _execute_workflow_async fuel eng execution_id w = Some (eng', calls, w') →
  ∃ es' exit st w1,
    while_loop (executors eng) (definition (es_workflow es))
      (input (es_execution es)) fuel (loop_init (definition (es_workflow es))) w
      = Some (exit, st, w1)
    ∧ calls = dispatched st
    ∧ running_executions eng' !! execution_id = Some es'
    ∧ es_execution es'
      = match exit with
        | Finished => finished_record (es_execution es) st w1
        | Raised err => failed_record (es_execution es) err w1
        end
    ∧ es_workflow es' = es_workflow es
    ∧ es_current_node es' = current_node st
    ∧ es_node_outputs es' = es_node_outputs es
    ∧ es_completed_nodes es' = es_completed_nodes es
    ∧ (∀ other, other ≠ execution_id →
         running_executions eng' !! other = running_executions eng !! other).
Proof.
  intros Hes. unfold _execute_workflow_async. rewrite Hes.
  destruct (while_loop _ _ _ _ _ _) as [[[exit st] w1]|]; [|done].
  destruct exit as [|err]; intros [= <- <- <-]; simpl;
    eexists _, _, st, w1; rewrite lookup_insert_eq;
    (split_and!; [done..|]); intros other Hne; by rewrite lookup_insert_ne.
Qed.

(** X6: [get_execution_status] after the task of a submitted execution
    has ended reports the status and the error of the record; its
    [completed_nodes] entry is the empty list whatever the task executed,
    because the task keeps the completed nodes in a local variable; after a
    successful run they are in the output of the record only. *)
Theorem status_report_after_task (fuel : nat) (eng eng' : WorkflowEngine)
    (workflow : Workflow) (input_data : dict) (w w' : World)
    (calls : list (string * dict)) :
  _execute_workflow_async fuel
    (execute_workflow eng workflow input_data w).1.2
    (execute_workflow eng workflow input_data w).1.1
    (execute_workflow eng workflow input_data w).2 = Some (eng', calls, w') →
  ∃ e,
    record_of eng' (execute_workflow eng workflow input_data w).1.1 = Some e
    ∧ (status e = SUCCESS ∨ status e = FAILED)
    ∧ get_execution_status eng' (execute_workflow eng workflow input_data w).1.1
        !! "status" = Some (VStr (ExecutionStatus_value (status e)))
    ∧ get_execution_status eng' (execute_workflow eng workflow input_data w).1.1
        !! "error" = Some (from_option VStr VNone (error e))
    ∧ get_execution_status eng' (execute_workflow eng workflow input_data w).1.1
        !! "completed_nodes" = Some (VList [])
    ∧ (status e = SUCCESS →
       ∃ st, output e = Some (success_output st)
             ∧ completed_nodes st = list_to_set calls.*1).
Proof.
  set (id := (execute_workflow eng workflow input_data w).1.1).
  intros Htask.
  assert (∃ es, running_executions (execute_workflow eng workflow input_data w).1.2
                  !! id = Some es
                ∧ es_completed_nodes es = ∅) as (es & Hes & Hempty).
  { unfold id, execute_workflow. simpl. eexists. split; [apply lookup_insert_eq|done]. }
  destruct (execute_task_state _ _ _ _ _ _ _ _ Hes Htask)
    as (es' & exit & st & w1 & Hrun & -> & Hes' & Hrec & _ & _ & _ & Hcomp & _).
  exists (es_execution es'). unfold record_of, get_execution_status.
  rewrite Hes'. simpl. rewrite Hcomp, Hempty, elements_empty. simpl.
  split_and!; [done| |done..|].
  - rewrite Hrec. destruct exit; [by left|by right].
  - rewrite Hrec. destruct exit as [|err]; [|done]. intros _.
    exists st. split; [done|].
    destruct (calls_inv_run _ _ _ _ _ _ _ Hrun) as (Hcalls & _).
    apply set_eq. intros n. by rewrite elem_of_list_to_set.
Qed.

(** X7: an execution whose task has ended cannot be cancelled:
    [cancel_execution] returns [False] and changes nothing. *)
Theorem finished_execution_cannot_be_cancelled (fuel : nat)
    (eng eng' : WorkflowEngine) (execution_id : string) (es : ExecutionState)
    (w w' w2 : World) (calls : list (string * dict)) :
  running_executions eng !! execution_id = Some es →
  _execute_workflow_async fuel eng execution_id w = Some (eng', calls, w') →
  cancel_execution eng' execution_id w2 = (false, eng', w2).
Proof.
  intros Hes Htask.
  pose proof (task_overwrites_status _ _ _ _ _ _ _ _ Hes Htask) as Hst.
  unfold status_of in Hst. unfold cancel_execution.
  destruct (running_executions eng' !! execution_id) as [es'|]; [|done].
  simpl in Hst. rewrite decide_True; [done|].
  rewrite !elem_of_cons. destruct Hst as [[= ->]|[= ->]]; auto.
Qed.

(** X8: a second [cancel_execution] of the same identifier returns [False]
    and changes nothing, whatever the first one did. *)
Theorem cancel_execution_twice (eng : WorkflowEngine) (execution_id : string)
    (w w2 : World) :
  cancel_execution (cancel_execution eng execution_id w).1.2 execution_id w2
  = (false, (cancel_execution eng execution_id w).1.2, w2).
Proof.
  unfold cancel_execution at 2 3.
  destruct (running_executions eng !! execution_id) as [es|] eqn:Hes; simpl.
  2:{ unfold cancel_execution. by rewrite Hes. }
  destruct (decide (status (es_execution es) ∈ _)) as [Hs|Hs]; simpl.
  - unfold cancel_execution. rewrite Hes. by rewrite decide_True.
  - unfold cancel_execution. simpl. by rewrite lookup_insert_eq.
Qed.

(** X9: [execute_workflow] adds the identifier it returns to the running
    executions and keeps the others. *)
Theorem get_running_executions_after_start (eng : WorkflowEngine)
    (workflow : Workflow) (input_data : dict) (w : World) (id : string) :
  id ∈ get_running_executions (execute_workflow eng workflow input_data w).1.2
  ↔ id = (execute_workflow eng workflow input_data w).1.1
    ∨ id ∈ get_running_executions eng.
Proof.
  rewrite !elem_of_get_running_executions. unfold status_of, execute_workflow.
  simpl. destruct (decide (id = uuid4_at (uuid_draws w))) as [->|Hne].
  - rewrite lookup_insert_eq. simpl. tauto.
  - rewrite lookup_insert_ne by done. tauto.
Qed.

(** X10: after [cancel_execution], whatever it returns, its identifier is
    not among the running executions, and the others are as before. *)
Theorem get_running_executions_after_cancel (eng : WorkflowEngine)
    (execution_id : string) (w : World) (id : string) :
  id ∈ get_running_executions (cancel_execution eng execution_id w).1.2
  ↔ id ≠ execution_id ∧ id ∈ get_running_executions eng.
Proof.
  rewrite !elem_of_get_running_executions. unfold status_of, cancel_execution.
  destruct (running_executions eng !! execution_id) as [es|] eqn:Hes; simpl.
  2:{ split; [|tauto]. intros Hid. split; [|done]. intros ->.
      by rewrite Hes in Hid. }
  destruct (decide (status (es_execution es) ∈ _)) as [Hs|Hs]; simpl.
  - split; [|tauto]. intros Hid. split; [|done]. intros ->.
    rewrite Hes in Hid. simpl in Hid. injection Hid as Hid.
    rewrite Hid, !elem_of_cons, elem_of_nil in Hs.
    destruct Hs as [|[|[|]]]; done.
  - destruct (decide (id = execution_id)) as [->|Hne].
    + rewrite lookup_insert_eq. simpl. split; [done|tauto].
    + rewrite lookup_insert_ne by done. tauto.
Qed.

(** X11: when the task of an execution has ended, the execution is not
    among the running ones, and the others are as before. *)
Theorem get_running_executions_after_task (fuel : nat)
    (eng eng' : WorkflowEngine) (execution_id : string) (es : ExecutionState)
    (w w' : World) (calls : list (string * dict)) (id : string) :
  running_executions eng !! execution_id = Some es →
  _execute_workflow_async fuel eng execution_id w = Some (eng', calls, w') →
  id ∈ get_running_executions eng'
  ↔ id ≠ execution_id ∧ id ∈ get_running_executions eng.
Proof.
  intros Hes Htask. rewrite !elem_of_get_running_executions.
  pose proof (task_overwrites_status _ _ _ _ _ _ _ _ Hes Htask) as Hst.
  destruct (execute_task_state _ _ _ _ _ _ _ _ Hes Htask)
    as (_ & _ & _ & _ & _ & _ & _ & _ & _ & _ & _ & _ & Hother).
  destruct (decide (id = execution_id)) as [->|Hne].
  - split; [|tauto]. intros Hid. rewrite Hid in Hst.
    destruct Hst as [|]; discriminate.
  - unfold status_of. rewrite Hother by done. tauto.
Qed.

End lifecycle_facts.

Lemma chain_task :
  run_submitted 5 (submit plain_chain ∅)
  = Some (finished_engine (run_submitted 5 (submit plain_chain ∅)),
          finished_calls (run_submitted 5 (submit plain_chain ∅)),
          finished_world (run_submitted 5 (submit plain_chain ∅))).
Proof. apply finished_task. vm_compute. reflexivity. Qed.

(** After the run of the chain the status report lists no completed node;
    the output of the record lists the four. *)
Lemma status_report_after_task_witness :
  (finished_calls (run_submitted 5 (submit plain_chain ∅))).*1
  = ["trigger"; "connector"; "agent"; "action"]
  ∧ ∃ e,
      record_of (finished_engine (run_submitted 5 (submit plain_chain ∅)))
        "execution-0" = Some e
      ∧ (status e = SUCCESS ∨ status e = FAILED)
      ∧ @get_execution_status example_platform
          (finished_engine (run_submitted 5 (submit plain_chain ∅)))
          "execution-0" !! "status"
        = Some (VStr (ExecutionStatus_value (status e)))
      ∧ @get_execution_status example_platform
          (finished_engine (run_submitted 5 (submit plain_chain ∅)))
          "execution-0" !! "error"
        = Some (from_option VStr VNone (error e))
      ∧ @get_execution_status example_platform
          (finished_engine (run_submitted 5 (submit plain_chain ∅)))
          "execution-0" !! "completed_nodes" = Some (VList [])
      ∧ (status e = SUCCESS →
         ∃ st, output e = Some (success_output st)
               ∧ completed_nodes st
                 = list_to_set
                     (finished_calls (run_submitted 5 (submit plain_chain ∅))).*1).
Proof.
  split; [vm_compute; reflexivity|].
  exact (@status_report_after_task example_platform 5 fresh_engine _
           (mk_workflow plain_chain) ∅ world0 _ _ chain_task).
Defined.

Lemma finished_execution_cannot_be_cancelled_witness :
  status_of (finished_engine (run_submitted 5 (submit plain_chain ∅)))
    "execution-0" = Some SUCCESS
  ∧ @cancel_execution example_platform
      (finished_engine (run_submitted 5 (submit plain_chain ∅)))
      "execution-0" (finished_world (run_submitted 5 (submit plain_chain ∅)))
    = (false, finished_engine (run_submitted 5 (submit plain_chain ∅)),
       finished_world (run_submitted 5 (submit plain_chain ∅))).
Proof.
  split; [vm_compute; reflexivity|].
  exact (@finished_execution_cannot_be_cancelled example_platform 5
           (submit plain_chain ∅).1.2 _ "execution-0" _
           (submit plain_chain ∅).2 _ _ _ eq_refl chain_task).
Defined.

Lemma get_running_executions_after_task_witness :
  get_running_executions (submit plain_chain ∅).1.2 = ["execution-0"]
  ∧ ("execution-0"
     ∈ get_running_executions
         (finished_engine (run_submitted 5 (submit plain_chain ∅)))
     ↔ "execution-0" ≠ "execution-0"
       ∧ "execution-0" ∈ get_running_executions (submit plain_chain ∅).1.2).
Proof.
  split; [vm_compute; reflexivity|].
  exact (@get_running_executions_after_task example_platform 5
           (submit plain_chain ∅).1.2 _ "execution-0" _
           (submit plain_chain ∅).2 _ _ "execution-0" eq_refl chain_task).
Defined.

(** ** The data the agent executor counts *)

Section data_flow.
Context {platform : Platform}.
Variable d : WorkflowDefinition.
Variable top : dict.
Hypothesis types_known : ∀ node, node ∈ nodes d → node_type node ∈ known_types.
Hypothesis edges_declared :
  ∀ e, e ∈ edges d → from_node e ∈ node_ids d ∧ to_node e ∈ node_ids d.
Hypothesis top_data_sized : data_sized top.

Lemma outputs_inv_Next (cur : string) (queue : list string)
    (st st' : LoopState) (w w' : World) :
  builtin_inv d st → outputs_inv builtin_executors d top st →
  loop_body builtin_executors d (Some top) cur queue st w = Next st' w' →
  outputs_inv builtin_executors d top st'.
Proof.
  intros [_ Hno] Hinv Hb.
  apply loop_body_Next in Hb
    as [(_ & _ & ->)|[(_ & _ & _ & ->)|(_ & _ & node & top' & ex & out
                                         & Hnode & [= <-] & Hex & Hrun & ->)]];
    [done..|].
  intros c out'. simpl. destruct (decide (c = cur)) as [->|Hne].
  - rewrite lookup_insert_eq. intros [= <-].
    exists node, ex, (prepare_input top (dependencies d cur) (node_outputs st)),
      w, w'.
    split_and!; [done..| |done]. by apply prepare_input_data.
  - rewrite lookup_insert_ne by done. apply Hinv.
Qed.

(** X12: in a run of the built-in executors no output has a ["data"]
    entry, so the ["data"] an agent node counts is that of the top-level
    input of the execution, whatever the nodes before it returned: the
    [total_items] of its analysis is the length of that entry, and 0 when
    there is none. *)
Theorem agent_counts_top_level_data (fuel : nat) (st : LoopState)
    (w w' : World) (c : string) (node : WorkflowNode) (out : dict) :
  while_loop builtin_executors d (Some top) fuel (loop_init d) w
    = Some (Finished, st, w') →
  nodes_by_id d !! c = Some node →
  node_type node = "agent" →
  node_outputs st !! c = Some out →
  ∃ n, py_len (default (VList []) (top !! "data")) = Ok n
       ∧ out !! "analysis"
         = Some (VDict {[ "total_items" := VInt (Z.of_nat n);
                          "categorized" := VBool true;
                          "anomalies_found" := VInt 2 ]}).
Proof.
  intros Hrun Hnode Htype Hout.
  pose proof (while_loop_invariant builtin_executors d (Some top)
                (λ st, builtin_inv d st ∧ outputs_inv builtin_executors d top st)
                (λ _ _, True)) as Hgen.
  apply (Hgen) with (fuel := fuel) (st := loop_init d) (w := w)
                    (exit := Finished) (st' := st) (w' := w') in Hrun.
  - destruct Hrun as [[_ Hinv] _].
    destruct (Hinv c out Hout)
      as (node' & ex & inp & w0 & w1 & Hnode' & Hex & Hdata & Hcall).
    rewrite Hnode in Hnode'. injection Hnode' as <-.
    rewrite Htype in Hex.
    assert (builtin_executors !! "agent" = Some AgentExecutor) as Hagent
      by reflexivity.
    rewrite Hagent in Hex. injection Hex as <-.
    unfold AgentExecutor in Hcall. rewrite Hdata in Hcall.
    destruct (py_len (default (VList []) (top !! "data"))) as [n|e] eqn:Hlen;
      [|done].
    exists n. split; [done|]. injection Hcall as <- _. by vm_compute.
  - intros cur queue st0 w0 st1 w1 [Hb Ho] Hq Hbody. split.
    + by eapply (builtin_inv_Next d top).
    + by eapply outputs_inv_Next.
  - done.
  - split; [apply builtin_inv_init|]. intros c' out' Hc'. done.
Qed.

End data_flow.

Lemma output_of_Some (c : string) (st : LoopState) :
  (λ _, ()) <$> node_outputs st !! c = Some () →
  node_outputs st !! c = Some (output_of c st).
Proof. unfold output_of. by destruct (node_outputs st !! c). Qed.

Lemma two_items_loop :
  example_loop plain_chain two_items 5
  = Some (Finished, final_state plain_chain two_items 5,
          final_world plain_chain two_items 5).
Proof. apply example_loop_exit. vm_compute. reflexivity. Qed.

(** In the chain the connector fetches fifteen records and the agent counts
    the two items of the top-level input. *)
Lemma agent_counts_top_level_data_witness :
  records_fetched (output_of "connector" (final_state plain_chain two_items 5))
  = Some (VInt 15)
  ∧ ∃ n,
      py_len (default (VList []) (two_items !! "data")) = Ok n
      ∧ n = 2
      ∧ output_of "agent" (final_state plain_chain two_items 5) !! "analysis"
        = Some (VDict {[ "total_items" := VInt (Z.of_nat n);
                         "categorized" := VBool true;
                         "anomalies_found" := VInt 2 ]}).
Proof.
  split; [vm_compute; reflexivity|].
  assert (node_outputs (final_state plain_chain two_items 5) !! "agent"
          = Some (output_of "agent" (final_state plain_chain two_items 5)))
    as Hout by (apply output_of_Some; vm_compute; reflexivity).
  destruct (@agent_counts_top_level_data example_platform plain_chain two_items
              (chain_types_known ∅ ∅ ∅ ∅)
              (proj2 (chain_well_formed ∅ ∅ ∅ ∅)) I
              5 _ world0 _ "agent" (mk_node "agent" "agent" ∅) _
              two_items_loop eq_refl eq_refl Hout) as (n & Hn & Hanalysis).
  exists n. split_and!; [exact Hn| |exact Hanalysis].
  vm_compute in Hn. by injection Hn as <-.
Defined.

(** ** The endpoints of routes/executions.py *)

Section route_facts.
Context {platform : Platform}.

(** X13: an execution made by [create_execution] is PENDING and is the
    record [get_execution] returns for its identifier; the cancel endpoint
    cancels it once: the first call answers and leaves the record
    CANCELLED, the second raises the [HTTPException] with status 400 and
    changes nothing. *)
Theorem created_execution_is_cancelled_once (db : gmap string Execution)
    (execution_data : ExecutionCreate) (user : string) (w w2 w3 : World) :
  status (create_execution db execution_data user w).1.1 = PENDING
  ∧ get_execution (create_execution db execution_data user w).1.2
      (exec_id (create_execution db execution_data user w).1.1)
    = inr (create_execution db execution_data user w).1.1
  ∧ (∃ response,
       (route_cancel_execution (create_execution db execution_data user w).1.2
          (exec_id (create_execution db execution_data user w).1.1) w2).1.1
       = inr response)
  ∧ status <$>
      (route_cancel_execution (create_execution db execution_data user w).1.2
         (exec_id (create_execution db execution_data user w).1.1) w2).1.2
        !! exec_id (create_execution db execution_data user w).1.1
    = Some CANCELLED
  ∧ route_cancel_execution
      (route_cancel_execution (create_execution db execution_data user w).1.2
         (exec_id (create_execution db execution_data user w).1.1) w2).1.2
      (exec_id (create_execution db execution_data user w).1.1) w3
    = (inl {| status_code := 400;
              detail := "Cannot cancel execution that is not pending or running" |},
       (route_cancel_execution (create_execution db execution_data user w).1.2
          (exec_id (create_execution db execution_data user w).1.1) w2).1.2,
       w3).
Proof.
  unfold create_execution. simpl. unfold get_execution.
  rewrite lookup_insert_eq. split_and!; [done..| | |].
  - unfold route_cancel_execution. rewrite lookup_insert_eq. simpl. eauto.
  - unfold route_cancel_execution. rewrite lookup_insert_eq. simpl.
    by rewrite lookup_insert_eq.
  - unfold route_cancel_execution at 2 3. rewrite lookup_insert_eq. simpl.
    unfold route_cancel_execution. by rewrite lookup_insert_eq.
Qed.

(** X14: [update_execution_status] looks at no status: it puts any stored
    execution, a terminal one included, back to RUNNING, keeping its
    [completed_at], error and output, after which the cancel endpoint
    cancels it (again); for an identifier that is not stored it raises an
    [AttributeError] (the parameter [status] hides the module of the HTTP
    codes) and changes nothing. *)
Theorem update_execution_status_has_no_guard (db : gmap string Execution)
    (execution_id : string) (w w2 : World) :
  match db !! execution_id with
  | None =>
    ∀ s o m,
      update_execution_status db execution_id s o m w
      = (Raise (PyError "AttributeError"
                  "'str' object has no attribute 'HTTP_404_NOT_FOUND'"), db, w)
  | Some e =>
    update_execution_status db execution_id RUNNING None None w
    = (Ok (set_status RUNNING e), <[execution_id := set_status RUNNING e]> db, w)
    ∧ completed_at (set_status RUNNING e) = completed_at e
    ∧ ∃ response,
        route_cancel_execution (<[execution_id := set_status RUNNING e]> db)
          execution_id w2
        = (inr response,
           <[execution_id :=
               cancelled_by_user (utcnow_at (clock_reads w2)) e]> db,
           tick w2)
  end.
Proof.
  destruct (db !! execution_id) as [e|] eqn:He.
  - unfold update_execution_status, route_cancel_execution.
    rewrite He, lookup_insert_eq. simpl. split_and!; [done..|].
    eexists. by rewrite insert_insert_eq.
  - intros s o m. unfold update_execution_status. by rewrite He.
Qed.

Lemma count_statuses (statuses : list string) :
  length statuses
  = (length (filter (λ s, s = "success") statuses)
     + length (filter (λ s, s = "failed") statuses)
     + length (filter (λ s, s = "running") statuses)
     + length (filter (λ s, s = "cancelled") statuses)
     + length (filter (λ s, s ∉ ["success"; "failed"; "running"; "cancelled"])
                 statuses))%nat.
Proof.
  induction statuses as [|s l IH]; [done|].
  rewrite !filter_cons. simpl. rewrite IH.
  destruct (decide (s ∉ _)) as [Hother|Hknown].
  - rewrite !elem_of_cons, elem_of_nil in Hother.
    repeat case_decide; simpl; try lia; tauto.
  - apply dec_stable in Hknown.
    rewrite !elem_of_cons, elem_of_nil in Hknown.
    destruct Hknown as [->|[->|[->|[->|[]]]]];
      repeat case_decide; simpl; try lia; done.
Qed.

(** X15: in the summary of [get_execution_stats] the four categories add
    up to the total only when every stored status is one of their four
    strings: the total is their sum plus the number of executions with
    another status, [pending] or any other string stored, which the
    summary does not report. *)
Theorem get_execution_stats_counts (statuses : list string) :
  ∃ total successful failed running cancelled,
    get_execution_stats statuses !! "total_executions" = Some total
    ∧ get_execution_stats statuses !! "successful_executions" = Some successful
    ∧ get_execution_stats statuses !! "failed_executions" = Some failed
    ∧ get_execution_stats statuses !! "running_executions" = Some running
    ∧ get_execution_stats statuses !! "cancelled_executions" = Some cancelled
    ∧ get_execution_stats statuses !! "pending_executions" = None
    ∧ total
      = (successful + failed + running + cancelled
         + length (filter (λ s, s ∉ ["success"; "failed"; "running"; "cancelled"])
                     statuses))%nat.
Proof.
  do 5 eexists. unfold get_execution_stats.
  split_and!; [reflexivity..|]. apply count_statuses.
Qed.

End route_facts.

(** ** The listing of executions *)

Section listing_facts.
Context {A : Type}.
Variable key : A → Z.

Lemma insert_reverse_perm (x : A) (l : list A) :
  insert_reverse key x l ≡ₚ x :: l.
Proof.
  induction l as [|y l IH]; simpl; [done|].
  case_decide; [|done]. rewrite IH. apply Permutation_swap.
Qed.

Lemma sort_reverse_perm (l : list A) : sort_reverse key l ≡ₚ l.
Proof.
  induction l as [|x l IH]; simpl; [done|].
  by rewrite insert_reverse_perm, IH.
Qed.

Lemma insert_reverse_sorted (x : A) (l : list A) :
  StronglySorted (λ a b, (key b ≤ key a)%Z) l →
  StronglySorted (λ a b, (key b ≤ key a)%Z) (insert_reverse key x l).
Proof.
  induction 1 as [|y l Hs IH Hy]; simpl.
  - repeat constructor.
  - case_decide as Hlt.
    + constructor; [done|]. rewrite insert_reverse_perm.
      constructor; [lia|done].
    + constructor; [by constructor|].
      constructor; [lia|]. eapply Forall_impl; [exact Hy|]. simpl. lia.
Qed.

Lemma sort_reverse_sorted (l : list A) :
  StronglySorted (λ a b, (key b ≤ key a)%Z) (sort_reverse key l).
Proof.
  induction l as [|x l IH]; simpl; [constructor|].
  by apply insert_reverse_sorted.
Qed.

(** The sort is stable: the elements of one key keep their order. *)
Lemma insert_reverse_stable (k : Z) (x : A) (l : list A) :
  filter (λ a, key a = k) (insert_reverse key x l)
  = filter (λ a, key a = k) (x :: l).
Proof.
  induction l as [|y l IH]; simpl; [done|].
  case_decide as Hlt; [|done].
  rewrite filter_cons, IH, !filter_cons.
  repeat case_decide; try done; lia.
Qed.

Lemma sort_reverse_stable (k : Z) (l : list A) :
  filter (λ a, key a = k) (sort_reverse key l) = filter (λ a, key a = k) l.
Proof.
  induction l as [|x l IH]; simpl; [done|].
  by rewrite insert_reverse_stable, !filter_cons, IH.
Qed.

Lemma StronglySorted_take (R : A → A → Prop) (n : nat) (l : list A) :
  StronglySorted R l → StronglySorted R (take n l).
Proof.
  intros Hs. revert n. induction Hs as [|x l Hs IH Hx]; intros [|n]; simpl;
    try constructor; [apply IH|].
  eapply Forall_forall. intros y Hy. eapply Forall_forall in Hx; [exact Hx|].
  eapply subseteq_take, Hy.
Qed.

Lemma py_slice_to_take (limit : Z) (l : list A) :
  ∃ n, py_slice_to limit l = take n l.
Proof. unfold py_slice_to. case_decide; eauto. Qed.

End listing_facts.

Section get_executions_facts.
Variable datetime_min : Z.

(** X16: [get_executions] returns executions of the list, each at most as
    often as the list has it, sorted by start time with the latest first
    (an execution without start time counts as started at [datetime.min]);
    with a workflow identifier that is not empty all of them are of that
    workflow; a [limit] that is not negative bounds their number, and when
    it does not cut the list the executions of one start time stay in the
    order of the list; a negative [limit] is not refused: it drops that
    many executions from the end of the sorted list. *)
Theorem get_executions_result (executions : list Execution)
    (workflow_filter : option string) (limit : Z) :
  StronglySorted
    (λ a b, (started_key datetime_min b ≤ started_key datetime_min a)%Z)
    (get_executions datetime_min executions workflow_filter limit)
  ∧ get_executions datetime_min executions workflow_filter limit ⊆+ executions
  ∧ (∀ wanted, workflow_filter = Some wanted → wanted ≠ "" →
       Forall (λ e, workflow_id e = wanted)
         (get_executions datetime_min executions workflow_filter limit))
  ∧ ((0 ≤ limit)%Z →
       (length (get_executions datetime_min executions workflow_filter limit)
        ≤ Z.to_nat limit)%nat
       ∧ ∀ k, (length executions ≤ Z.to_nat limit)%nat →
              filter (λ e, started_key datetime_min e = k)
                (get_executions datetime_min executions None limit)
              = filter (λ e, started_key datetime_min e = k) executions)
  ∧ ((limit < 0)%Z →
       length (get_executions datetime_min executions None limit)
       = (length executions - Z.to_nat (- limit))%nat).
Proof.
  unfold get_executions.
  set (selected := match workflow_filter with
                   | Some wanted =>
                     if decide (wanted = "") then executions
                     else filter (λ e, workflow_id e = wanted) executions
                   | None => executions
                   end).
  assert (selected ⊆+ executions) as Hsel.
  { unfold selected. destruct workflow_filter as [wanted|]; [|done].
    case_decide; [done|]. apply sublist_submseteq, sublist_filter. }
  destruct (py_slice_to_take limit (sort_reverse (started_key datetime_min) selected))
    as [n Hn].
  split_and!.
  - rewrite Hn. apply StronglySorted_take, sort_reverse_sorted.
  - rewrite Hn. etrans; [apply sublist_submseteq, sublist_take|].
    by rewrite sort_reverse_perm.
  - intros wanted -> Hne. rewrite Hn. apply Forall_take.
    rewrite sort_reverse_perm. unfold selected. rewrite decide_False by done.
    apply Forall_forall. intros e He. by apply list_elem_of_filter in He as [? _].
  - intros Hlimit. unfold py_slice_to. rewrite !decide_True by done. split.
    + rewrite length_take. lia.
    + intros k Hlen. rewrite take_ge; [apply sort_reverse_stable|].
      by rewrite sort_reverse_perm.
  - intros Hlimit. unfold py_slice_to. rewrite decide_False by lia.
    rewrite length_take, sort_reverse_perm. lia.
Qed.

End get_executions_facts.

(** ** The execute endpoint of routes/workflows.py *)

Section execute_route_facts.
Context {platform : Platform}.

(** X17: the execute endpoint starts nothing for a workflow that is not
    stored or not active: it raises the [HTTPException] with status 404 or
    400, and no identifier is drawn, no clock is read and no task is
    created.  For an active workflow, whatever its definition, it answers
    with the identifier drawn and the status ["running"], and creates the
    task on an engine made for the call, whose only execution is that
    one. *)
Theorem route_execute_workflow_cases (workflows_db : gmap string Workflow)
    (workflow_id : string) (input_data : option dict) (w : World) :
  match workflows_db !! workflow_id with
  | None =>
    route_execute_workflow workflows_db workflow_id input_data w
    = (inl {| status_code := 404; detail := "Workflow not found" |}, w)
  | Some workflow =>
    if is_active workflow then
      ∃ response eng w',
        route_execute_workflow workflows_db workflow_id input_data w
        = (inr (response, eng), w')
        ∧ response !! "execution_id" = Some (VStr (uuid4_at (uuid_draws w)))
        ∧ response !! "status" = Some (VStr "running")
        ∧ loop_tasks w' = loop_tasks w ++ [uuid4_at (uuid_draws w)]
        ∧ get_running_executions eng = [uuid4_at (uuid_draws w)]
        ∧ (es_workflow <$> running_executions eng !! uuid4_at (uuid_draws w))
          = Some workflow
        ∧ ∀ other, other ≠ uuid4_at (uuid_draws w) →
            get_execution_status eng other
            = {[ "error" := VStr "Execution not found" ]}
    else
      route_execute_workflow workflows_db workflow_id input_data w
      = (inl {| status_code := 400; detail := "Workflow is not active" |}, w)
  end.
Proof.
  unfold route_execute_workflow.
  destruct (workflows_db !! workflow_id) as [workflow|]; [|done].
  destruct (is_active workflow); [|done].
  eexists _, _, _. split; [reflexivity|]. simpl.
  split_and!; [done..| | |].
  - unfold get_running_executions. simpl.
    by rewrite insert_empty, map_to_list_singleton.
  - by rewrite lookup_insert_eq.
  - intros other Hne. unfold get_execution_status. simpl.
    by rewrite lookup_insert_ne, lookup_empty by done.
Qed.

End execute_route_facts.

(** ** Closed instances of the endpoints *)

Lemma create_execution_example :
  exec_id (@create_execution example_platform ∅ example_request "user-1" world0).1.1
  = "execution-0"
  ∧ executed_by
      (@create_execution example_platform ∅ example_request "user-1" world0).1.1
    = Some "user-1"
  ∧ started_at
      (@create_execution example_platform ∅ example_request "user-1" world0).1.1
    = Some 1700000000%Z.
Proof. split_and!; vm_compute; reflexivity. Qed.

Lemma get_executions_example :
  exec_id <$> get_executions 0 example_listing None 10 = ["z"; "x"; "y"]
  ∧ exec_id <$> get_executions 0 example_listing (Some "workflow-1") 1 = ["z"]
  ∧ exec_id <$> get_executions 0 example_listing (Some "") 0 = []
  ∧ exec_id <$> get_executions 0 example_listing None (-1) = ["z"; "x"].
Proof. split_and!; vm_compute; reflexivity. Qed.

Lemma get_execution_stats_example :
  get_execution_stats ["success"; "pending"; "running"; "paused"]
    !! "total_executions" = Some 4
  ∧ get_execution_stats ["success"; "pending"; "running"; "paused"]
      !! "successful_executions" = Some 1
  ∧ get_execution_stats ["success"; "pending"; "running"; "paused"]
      !! "failed_executions" = Some 0
  ∧ get_execution_stats ["success"; "pending"; "running"; "paused"]
      !! "running_executions" = Some 1
  ∧ get_execution_stats ["success"; "pending"; "running"; "paused"]
      !! "cancelled_executions" = Some 0.
Proof. split_and!; vm_compute; reflexivity. Qed.
